(** * algolite: the filter compiler and the query route

    A shallow embedding of [src/parseAlgoliaSQL.js] and of the route
    [POST /1/indexes/:indexName/query] of [index.js], with the properties
    of the specification stated and proved over it.

    JavaScript values are the inductive [jsval]; a computation that may
    throw returns a [result], whose left injection is the exception.
    Numbers are the integers ([Z]): fractional numbers and [NaN] are
    outside this model.  The route is modelled on the parameters of a JSON
    body; with a [params] query string every parameter is a string.

    The generated parser [algoliaDSLParser.js] and the runtime's
    [Array.prototype.sort] are not among the sources: the route takes both
    as parameters, and the module [algoliaDSLParser] gives the grammar of
    the specification. *)

From Stdlib Require Import ZArith QArith Qround String Ascii List Lia DecimalString.
From stdpp Require Import base option list gmap strings.

Local Open Scope Z_scope.
Local Open Scope string_scope.

(** ** JavaScript values *)

(** A value as the compiler sees it.  An object is viewed through the five
    properties that [buildSearchExpression] destructures from a rule
    ([token], [key], [value], [left], [right]); a property the object does
    not have reads as [JUndefined]. *)
Inductive jsval : Type :=
| JUndefined
| JBool (b : bool)
| JNum (n : Z)
| JStr (s : string)
| JObj (token key value left right : jsval).

(** What a [throw] carries. *)
Inductive exn : Type :=
| Error (message : string)
| TypeError (message : string)
| SyntaxError (found : string).

(** A computation that returns or throws. *)
Definition result (A : Type) : Type := exn + A.

Definition ret {A} (a : A) : result A := inr a.
Definition throw {A} (e : exn) : result A := inl e.
Definition bind {A B} (m : result A) (k : A -> result B) : result B :=
  match m with
  | inl e => inl e
  | inr a => k a
  end.

Declare Scope js_scope.
Delimit Scope js_scope with js.
Notation "'let*' x := m 'in' k" := (bind m (fun x => k))
  (at level 10, x name, m at level 100, k at level 200) : js_scope.
Local Open Scope js_scope.

(** [ToString], as a template literal applies it.  An integer is printed
    in full decimal, as JavaScript prints it below [10^21] in magnitude;
    the exponent form it prints from there on is outside the model. *)
Definition string_of_Z (n : Z) : string := NilZero.string_of_int (Z.to_int n).

Definition ToString (v : jsval) : string :=
  match v with
  | JUndefined => "undefined"
  | JBool true => "true"
  | JBool false => "false"
  | JNum n => string_of_Z n
  | JStr s => s
  | JObj _ _ _ _ _ => "[object Object]"
  end.

(** [!v]: the falsy values are [undefined], [false], [0] and the empty
    string. *)
Definition falsy (v : jsval) : bool :=
  match v with
  | JUndefined => true
  | JBool b => negb b
  | JNum n => (n =? 0)%Z
  | JStr s => if decide (s = "") then true else false
  | JObj _ _ _ _ _ => false
  end.

(** [v === s] for a string literal [s]. *)
Definition strict_eq_str (v : jsval) (s : string) : bool :=
  match v with
  | JStr t => if decide (t = s) then true else false
  | _ => false
  end.

(** [v.value] and [v.token]: reading a property of [undefined] throws, a
    primitive has no such property. *)
Definition get_value (v : jsval) : result jsval :=
  match v with
  | JUndefined => throw (TypeError "Cannot read properties of undefined (reading 'value')")
  | JObj _ _ value _ _ => ret value
  | _ => ret JUndefined
  end.

Definition get_token (v : jsval) : result jsval :=
  match v with
  | JUndefined => throw (TypeError "Cannot read properties of undefined (reading 'token')")
  | JObj token _ _ _ _ => ret token
  | _ => ret JUndefined
  end.

(** ** The index capability *)

(** A stored record: a JavaScript object used as a map from property names
    to values. *)
Abbreviation record := (gmap string jsval).

(** What [SEARCH] returns for a match: the record is its [obj]. *)
Record item : Type := { obj : record }.

(** [db] is the search-index store.  The compiler uses its combinators
    [OR], [AND] and [NOT]; the handler calls [SEARCH], which may throw.  A
    JavaScript string is itself a query expression: [term] is that
    inclusion. *)
Record Db (E : Type) : Type := {
  term : string -> E;
  OR : E -> E -> E;
  AND : E -> E -> E;
  NOT : E -> E -> E;
  SEARCH : list E -> result (list item)
}.
Arguments term {E}.
Arguments OR {E}.
Arguments AND {E}.
Arguments NOT {E}.
Arguments SEARCH {E}.

(** ** src/parseAlgoliaSQL.js *)
Module parseAlgoliaSQL.
Section Compiler.
Context {E : Type} (db : Db E).

Fixpoint buildSearchExpression (rule : jsval) : result E :=
  match rule with
  | JUndefined =>
      throw (TypeError "Cannot destructure property 'token' of undefined")
  | JObj token key value left' right' =>
      if strict_eq_str token "MATCH" then
        let* v := get_value value in
        ret (term db (ToString key +:+ ":" +:+ ToString v))
      else if strict_eq_str token "OR" then
        let* leftExpression := buildSearchExpression left' in
        let* rightExpression := buildSearchExpression right' in
        ret (OR db leftExpression rightExpression)
      else if strict_eq_str token "AND" then
        let* leftExpression := buildSearchExpression left' in
        let* rightExpression := buildSearchExpression right' in
        ret (AND db leftExpression rightExpression)
      else if strict_eq_str token "NOT" then
        let* t := get_token value in
        if strict_eq_str t "MATCH" then
          let* expression := buildSearchExpression value in
          ret (NOT db (term db "*") expression)
        else throw (Error "NOT only supports MATCH")
      else throw (Error "UNKNOWN TOKEN")
  | _ => throw (Error "UNKNOWN TOKEN")
  end.

(** [module.exports]: parse, then compile.  The parser is handed in. *)
Definition parseAlgoliaSQL (parse : string -> result jsval) (sql : string)
  : result E :=
  let* ast := parse sql in
  buildSearchExpression ast.
End Compiler.
End parseAlgoliaSQL.

(** ** The syntax tree

    The four node kinds of a filter, and the object that stands for each:
    [buildSearchExpression] reads [key] and [value.value] of a [MATCH],
    [left] and [right] of an [AND] or [OR], and finds the operand of a
    [NOT] in [value]. *)
Module AST.
Inductive node : Type :=
| Match (key : string) (value : jsval)
| And (l r : node)
| Or (l r : node)
| Not (operand : node).

Fixpoint rule_of (n : node) : jsval :=
  match n with
  | Match key value =>
      JObj (JStr "MATCH") (JStr key)
           (JObj JUndefined JUndefined value JUndefined JUndefined)
           JUndefined JUndefined
  | And l r => JObj (JStr "AND") JUndefined JUndefined (rule_of l) (rule_of r)
  | Or l r => JObj (JStr "OR") JUndefined JUndefined (rule_of l) (rule_of r)
  | Not operand =>
      JObj (JStr "NOT") JUndefined (rule_of operand) JUndefined JUndefined
  end.
End AST.

(** ** algoliaDSLParser

    [parseAlgoliaSQL.js] requires [../algoliaDSLParser], the parser
    generated from the filter grammar. *)
Module algoliaDSLParser.
Import AST.

Inductive token : Type :=
| TAnd
| TOr
| TNot
| TLParen
| TRParen
| TColon
| TWord (w : string).

Definition is_space (c : ascii) : bool :=
  let n := nat_of_ascii c in
  ((n =? 32) || (n =? 9) || (n =? 10) || (n =? 13))%nat.

Definition is_letter (c : ascii) : bool :=
  let n := nat_of_ascii c in
  (((65 <=? n) && (n <=? 90)) || ((97 <=? n) && (n <=? 122)) || (n =? 95))%nat.

Definition is_digit (c : ascii) : bool :=
  let n := nat_of_ascii c in
  ((48 <=? n) && (n <=? 57))%nat.

Fixpoint all_chars (p : ascii -> bool) (s : string) : bool :=
  match s with
  | EmptyString => true
  | String c s' => p c && all_chars p s'
  end.

(** An identifier: a letter or underscore, then letters, digits and
    underscores. *)
Definition is_identifier (w : string) : bool :=
  match w with
  | EmptyString => false
  | String c s' =>
      is_letter c && all_chars (fun d => is_letter d || is_digit d) s'
  end.

(** A run of characters is one of the three keywords or a word. *)
Definition word_token (w : string) : token :=
  if decide (w = "AND") then TAnd
  else if decide (w = "OR") then TOr
  else if decide (w = "NOT") then TNot
  else TWord w.

Definition flush (cur : string) : list token :=
  if decide (cur = "") then [] else [word_token cur].

(** Modelled from the spec: the lexer of the absent parser.  White space
    separates tokens and is dropped; the parentheses and the colon are
    tokens of their own; [cur] is the run of characters read so far. *)
Fixpoint tokenize (cur : string) (s : string) : list token :=
  match s with
  | EmptyString => flush cur
  | String c s' =>
      if is_space c then flush cur ++ tokenize "" s'
      else if Ascii.eqb c "(" then flush cur ++ TLParen :: tokenize "" s'
      else if Ascii.eqb c ")" then flush cur ++ TRParen :: tokenize "" s'
      else if Ascii.eqb c ":" then flush cur ++ TColon :: tokenize "" s'
      else tokenize (cur +:+ String c "") s'
  end.

Definition show (t : token) : string :=
  match t with
  | TAnd => "AND"
  | TOr => "OR"
  | TNot => "NOT"
  | TLParen => "("
  | TRParen => ")"
  | TColon => ":"
  | TWord w => w
  end.

(** A literal is a boolean, a number or a string. *)
Definition literal (w : string) : jsval :=
  if decide (w = "true") then JBool true
  else if decide (w = "false") then JBool false
  else match NilZero.int_of_string w with
       | Some i => JNum (Z.of_int i)
       | None => JStr w
       end.

Definition unexpected {A} (ts : list token) : result A :=
  match ts with
  | [] => throw (SyntaxError "end of input")
  | t :: _ => throw (SyntaxError (show t))
  end.

Definition out_of_fuel {A} : result A := throw (Error "parser: out of fuel").

(** Modelled from the spec: the grammar of the absent parser, by
    recursive descent.  [key:value] is the only leaf, [NOT] a prefix
    operator, [AND] and [OR] are binary and left-associative with [AND]
    binding tighter, and parentheses group.  [fuel] bounds the depth of
    the calls. *)
Fixpoint parse_or (fuel : nat) (ts : list token) {struct fuel}
  : result (node * list token) :=
  match fuel with
  | O => out_of_fuel
  | S fuel =>
      let* p := parse_and fuel ts in
      or_loop fuel (fst p) (snd p)
  end
with or_loop (fuel : nat) (acc : node) (ts : list token) {struct fuel}
  : result (node * list token) :=
  match fuel with
  | O => out_of_fuel
  | S fuel =>
      match ts with
      | TOr :: ts' =>
          let* p := parse_and fuel ts' in
          or_loop fuel (Or acc (fst p)) (snd p)
      | _ => ret (acc, ts)
      end
  end
with parse_and (fuel : nat) (ts : list token) {struct fuel}
  : result (node * list token) :=
  match fuel with
  | O => out_of_fuel
  | S fuel =>
      let* p := parse_unary fuel ts in
      and_loop fuel (fst p) (snd p)
  end
with and_loop (fuel : nat) (acc : node) (ts : list token) {struct fuel}
  : result (node * list token) :=
  match fuel with
  | O => out_of_fuel
  | S fuel =>
      match ts with
      | TAnd :: ts' =>
          let* p := parse_unary fuel ts' in
          and_loop fuel (And acc (fst p)) (snd p)
      | _ => ret (acc, ts)
      end
  end
with parse_unary (fuel : nat) (ts : list token) {struct fuel}
  : result (node * list token) :=
  match fuel with
  | O => out_of_fuel
  | S fuel =>
      match ts with
      | TNot :: ts' =>
          let* p := parse_unary fuel ts' in
          ret (Not (fst p), snd p)
      | TLParen :: ts' =>
          let* p := parse_or fuel ts' in
          match snd p with
          | TRParen :: rest => ret (fst p, rest)
          | rest => unexpected rest
          end
      | TWord k :: TColon :: TWord v :: rest =>
          if is_identifier k then ret (Match k (literal v), rest)
          else throw (SyntaxError k)
      | TWord _ :: TColon :: rest => unexpected rest
      | TWord _ :: rest => unexpected rest
      | _ => unexpected ts
      end
  end.

Definition fuel_for (ts : list token) : nat := 3 * length ts + 3.

(** Modelled from the spec: [parse] of the absent [algoliaDSLParser.js].
    The text is cut into the tokens [AND], [OR], [NOT], [(], [)],
    identifier, [:] and literal, and parsed by the grammar above; what
    the grammar does not accept is a [SyntaxError] naming the offending
    token.  The result is the object of the tree. *)
Definition parse (text : string) : result jsval :=
  let ts := tokenize "" text in
  let* p := parse_or (fuel_for ts) ts in
  match snd p with
  | [] => ret (rule_of (fst p))
  | rest => unexpected rest
  end.

End algoliaDSLParser.


(** ** index.js *)

(** [ToNumber]; [None] is [NaN].  A string is a number when it is empty
    or a decimal integer; the other spellings JavaScript reads as numbers
    (white space around the digits, hexadecimal, an exponent, a fraction)
    are outside the model, which bears on comparisons of a string with a
    number only. *)
Definition ToNumber (v : jsval) : option Z :=
  match v with
  | JUndefined => None
  | JBool b => Some (if b then 1 else 0)
  | JNum n => Some n
  | JStr s =>
      if decide (s = "") then Some 0
      else option_map Z.of_int (NilZero.int_of_string s)
  | JObj _ _ _ _ _ => None
  end.

(** [x <= y] and [x >= y]: two strings compare by their characters,
    anything else by [ToNumber], and a comparison with [NaN] is false. *)
Definition js_le (x y : jsval) : bool :=
  match x, y with
  | JStr s, JStr t => String.leb s t
  | _, _ =>
      match ToNumber x, ToNumber y with
      | Some a, Some b => (a <=? b)%Z
      | _, _ => false
      end
  end.

Definition js_ge (x y : jsval) : bool :=
  match x, y with
  | JStr s, JStr t => String.leb t s
  | _, _ =>
      match ToNumber x, ToNumber y with
      | Some a, Some b => (a >=? b)%Z
      | _, _ => false
      end
  end.

(** [Array.prototype.join] on an array of strings. *)
Fixpoint join (sep : string) (l : list string) : string :=
  match l with
  | [] => ""
  | [x] => x
  | x :: l' => x +:+ sep +:+ join sep l'
  end.

(** [Array.prototype.slice(start, end)]: a negative index counts from the
    end, and both are clamped to the array. *)
Definition slice {A} (l : list A) (start end_ : Z) : list A :=
  let len := Z.of_nat (length l) in
  let k := if (start <? 0)%Z then Z.max (len + start) 0 else Z.min start len in
  let final := if (end_ <? 0)%Z then Z.max (len + end_) 0 else Z.min end_ len in
  take (Z.to_nat (final - k)) (drop (Z.to_nat k) l).

(** [Math.ceil(a / b)] on integers, the quotient taken in the rationals.
    A zero divisor, where JavaScript answers [Infinity] or [NaN], is
    outside the model. *)
Definition Math_ceil_div (a b : Z) : Z := Qceiling (inject_Z a / inject_Z b).

(** An element of [facetFilters]: a string or an array of strings. *)
Inductive facet : Type :=
| FStr (f : string)
| FArr (f : list string).

(** The parameters of a query, read from the JSON body; [None] is
    [undefined].  [sortAttribute] and [sortDesc] come from the index name. *)
Module Request.
Record t : Type := {
  sortAttribute : option string;
  sortDesc : bool;
  query : option string;
  filters : option string;
  facetFilters : option (list facet);
  page : option Z;
  hitsPerPage : option Z
}.
End Request.

Module Result.
Record t : Type := {
  hits : list record;
  params : string;
  query : string;
  page : Z;
  nbHits : Z;
  nbPages : Z;
  hitsPerPage : Z
}.
End Result.

(** What [res.status(..).json(..)] sends. *)
Inductive body : Type :=
| QueryBody (r : Result.t)
| MessageBody (message : string) (status : Z).

Record response : Type := { status : Z; json : body }.

(** [wrapAsyncMiddleware]: whatever the route throws is caught and answered
    with the same message. *)
Definition wrapAsyncMiddleware (asyncMiddleware : result response) : response :=
  match asyncMiddleware with
  | inr res => res
  | inl error =>
      {| status := 400; json := MessageBody "Internal server error" 500 |}
  end.

Module server.
Section Query.
Context {E : Type} (db : Db E).
(** The filter parser, and the [Array.prototype.sort] of the runtime. *)
Variable parse : string -> result jsval.
Variable sort : (record -> record -> Z) -> list record -> list record.

(** [if (query !== undefined) searchExp.push(!query ? '*' : query)] *)
Definition text_clause (query : option string) : list E :=
  match query with
  | None => []
  | Some q => [term db (if falsy (JStr q) then "*" else q)]
  end.

(** [if (filters) searchExp.push(parseAlgoliaSQL(db, filters))] *)
Definition filter_clause (filters : option string) : result (list E) :=
  match filters with
  | None => ret []
  | Some f =>
      if falsy (JStr f) then ret []
      else
        let* e := parseAlgoliaSQL.parseAlgoliaSQL db parse f in
        ret [e]
  end.

(** [f => Array.isArray(f) ? `(${f.join(' OR ')})` : f] *)
Definition piece (f : facet) : string :=
  match f with
  | FArr f => "(" +:+ join " OR " f +:+ ")"
  | FStr f => f
  end.

(** [facetFilters.map(..).join(' AND ')] *)
Definition facet_string (facetFilters : list facet) : string :=
  join " AND " (map piece facetFilters).

(** An array is truthy, also when it is empty. *)
Definition facet_clause (facetFilters : option (list facet)) : result (list E) :=
  match facetFilters with
  | None => ret []
  | Some ff =>
      let* e := parseAlgoliaSQL.parseAlgoliaSQL db parse (facet_string ff) in
      ret [e]
  end.

(** [obj.objectID = obj._id; delete obj._id; return obj] *)
Definition to_hit (it : item) : record :=
  let o := obj it in
  delete "_id" (<["objectID" := default JUndefined (o !! "_id")]> o).

Definition comparator (sortAttribute : string) (sortDesc : bool)
    (item1 item2 : record) : Z :=
  let item1Attr := default JUndefined (item1 !! sortAttribute) in
  let item2Attr := default JUndefined (item2 !! sortAttribute) in
  if sortDesc then (if js_ge item2Attr item1Attr then 1 else -1)
  else (if js_le item2Attr item1Attr then 1 else -1).

Definition sort_hits (sortAttribute : option string) (sortDesc : bool)
    (hits : list record) : list record :=
  match sortAttribute with
  | None => hits
  | Some a =>
      if falsy (JStr a) then hits
      else sort (comparator a sortDesc) hits
  end.

(** [hits.slice(from, end)] with [from = page * hitsPerPage] and
    [end = (from + hitsPerPage) - 1]. *)
Definition paginate (hits : list record) (page hitsPerPage : Z) : list record :=
  let from := page * hitsPerPage in
  let end_ := (from + hitsPerPage) - 1 in
  slice hits from end_.

(** [searchExp] when the search is issued: the text clause, then the
    filter clause, then the facet clause. *)
Definition search_expressions (req : Request.t) : result (list E) :=
  let* filterExp := filter_clause (Request.filters req) in
  let* facetExp := facet_clause (Request.facetFilters req) in
  ret (text_clause (Request.query req) ++ filterExp ++ facetExp)%list.

(** The route [POST /1/indexes/:indexName/query]. *)
Definition query_route (req : Request.t) : result response :=
  let page := default 0 (Request.page req) in
  let hitsPerPage := default 20 (Request.hitsPerPage req) in
  let query := Request.query req in
  let* searchExp := search_expressions req in
  let* result := SEARCH db searchExp in
  let nbHits := Z.of_nat (length result) in
  let nbPages := Math_ceil_div nbHits hitsPerPage in
  let hits := map to_hit result in
  let hits := sort_hits (Request.sortAttribute req) (Request.sortDesc req) hits in
  ret {| status := 200;
         json := QueryBody
           {| Result.hits := paginate hits page hitsPerPage;
              Result.params := "";
              Result.query := default "" query;
              Result.page := page;
              Result.nbHits := nbHits;
              Result.nbPages := nbPages;
              Result.hitsPerPage := hitsPerPage |} |}.

Definition query_endpoint (req : Request.t) : response :=
  wrapAsyncMiddleware (query_route req).
End Query.
End server.

(** The objects that may reach the compiler: the four node kinds, nested,
    and objects whose [token] is none of the four. *)
Definition known_token (token : jsval) : bool :=
  strict_eq_str token "MATCH" || strict_eq_str token "OR"
  || strict_eq_str token "AND" || strict_eq_str token "NOT".

Inductive Rule : jsval -> Prop :=
| Rule_Match key value : Rule (AST.rule_of (AST.Match key value))
| Rule_And l r :
    Rule l -> Rule r -> Rule (JObj (JStr "AND") JUndefined JUndefined l r)
| Rule_Or l r :
    Rule l -> Rule r -> Rule (JObj (JStr "OR") JUndefined JUndefined l r)
| Rule_Not operand :
    Rule operand ->
    Rule (JObj (JStr "NOT") JUndefined operand JUndefined JUndefined)
| Rule_unknown token key value l r :
    known_token token = false -> Rule (JObj token key value l r).

(** The rules that keep the invariant of the data model: every [NOT] is
    applied to a [MATCH], and every token is known. *)
Inductive Supported : jsval -> Prop :=
| Supported_Match key value : Supported (AST.rule_of (AST.Match key value))
| Supported_And l r :
    Supported l -> Supported r ->
    Supported (JObj (JStr "AND") JUndefined JUndefined l r)
| Supported_Or l r :
    Supported l -> Supported r ->
    Supported (JObj (JStr "OR") JUndefined JUndefined l r)
| Supported_Not key value :
    Supported (AST.rule_of (AST.Not (AST.Match key value))).

(** ** The specification's words, to compare the code with *)
Module Spec.
Import AST.

Section Compile.
Context {E : Type} (db : Db E).

(** The compiler as the specification gives it, case by case, over
    the tagged union. *)
Fixpoint compile (ast : node) : result E :=
  match ast with
  | Match key value => ret (term db (key +:+ ":" +:+ ToString value))
  | And l r =>
      let* a := compile l in
      let* b := compile r in
      ret (AND db a b)
  | Or l r =>
      let* a := compile l in
      let* b := compile r in
      ret (OR db a b)
  | Not (Match _ _ as operand) =>
      let* a := compile operand in
      ret (NOT db (term db "*") a)
  | Not _ => throw (Error "NOT only supports MATCH")
  end.
End Compile.

(** A tree without [Not]. *)
Fixpoint positive (n : node) : bool :=
  match n with
  | Match _ _ => true
  | And l r | Or l r => positive l && positive r
  | Not _ => false
  end.

(** A bare facet string read as [key:value]: cut at the first colon. *)
Fixpoint split_colon (s : string) : option (string * string) :=
  match s with
  | EmptyString => None
  | String c s' =>
      if Ascii.eqb c ":" then Some ("", s')
      else match split_colon s' with
           | Some (k, v) => Some (String c k, v)
           | None => None
           end
  end.

Definition match_of (s : string) : option node :=
  match split_colon s with
  | Some (k, v) => Some (Match k (algoliaDSLParser.literal v))
  | None => None
  end.

(** [n1 op n2 op ... op nk], associated to the left. *)
Definition chain (op : node -> node -> node) (ns : list node) : option node :=
  match ns with
  | [] => None
  | n :: ns' => Some (fold_left op ns' n)
  end.

Fixpoint all_some {A} (l : list (option A)) : option (list A) :=
  match l with
  | [] => Some []
  | Some a :: l' =>
      match all_some l' with
      | Some r => Some (a :: r)
      | None => None
      end
  | None :: _ => None
  end.

Definition group (f : facet) : option node :=
  match f with
  | FStr s => match_of s
  | FArr l =>
      match all_some (map match_of l) with
      | Some ms => chain Or ms
      | None => None
      end
  end.

(** The facet filter normalizer as the specification gives it: a bare
    string is one [Match], a nested list the [Or] of its members, and
    the elements are combined with [And]. *)
Definition normalize (facetFilters : list facet) : option node :=
  match all_some (map group facetFilters) with
  | Some gs => chain And gs
  | None => None
  end.

(** The facet filters on which the code and the normalizer meet: every
    member is [key:value] with an identifier for key and one word for
    value, neither of them a keyword of the grammar; no group and no
    list is empty. *)
Definition is_word_char (c : ascii) : bool :=
  negb (algoliaDSLParser.is_space c) && negb (Ascii.eqb c "(")
  && negb (Ascii.eqb c ")") && negb (Ascii.eqb c ":").

Definition is_keyword (w : string) : bool :=
  match algoliaDSLParser.word_token w with
  | algoliaDSLParser.TWord _ => false
  | _ => true
  end.

Definition plain_key (k : string) : bool :=
  algoliaDSLParser.is_identifier k && negb (is_keyword k).

Definition plain_value (v : string) : bool :=
  match v with
  | EmptyString => false
  | _ => algoliaDSLParser.all_chars is_word_char v && negb (is_keyword v)
  end.

Definition plain_member (s : string) : bool :=
  match split_colon s with
  | Some (k, v) => plain_key k && plain_value v
  | None => false
  end.

Definition plain_facet (f : facet) : bool :=
  match f with
  | FStr s => plain_member s
  | FArr [] => false
  | FArr l => forallb plain_member l
  end.

Definition plain_facets (facetFilters : list facet) : bool :=
  match facetFilters with
  | [] => false
  | _ => forallb plain_facet facetFilters
  end.

(** Where a word ends: at the end of the text, before white space and
    before a closing parenthesis. *)
Inductive boundary : string -> Prop :=
| boundary_end : boundary ""
| boundary_space s : boundary (String " " s)
| boundary_paren s : boundary (String ")" s).

(** The tokens of a plain member, of a group and of a list. *)
Definition member_tokens (s : string) : list algoliaDSLParser.token :=
  match split_colon s with
  | Some (k, v) =>
      [algoliaDSLParser.TWord k; algoliaDSLParser.TColon; algoliaDSLParser.TWord v]
  | None => []
  end.

Definition tail_tokens (sep : algoliaDSLParser.token)
    (pieces : list (list algoliaDSLParser.token)) : list algoliaDSLParser.token :=
  flat_map (fun p => sep :: p) pieces.

Definition sep_tokens (sep : algoliaDSLParser.token)
    (pieces : list (list algoliaDSLParser.token)) : list algoliaDSLParser.token :=
  match pieces with
  | [] => []
  | p :: ps => (p ++ tail_tokens sep ps)%list
  end.

Definition facet_tokens (f : facet) : list algoliaDSLParser.token :=
  match f with
  | FStr s => member_tokens s
  | FArr l =>
      (algoliaDSLParser.TLParen
         :: sep_tokens algoliaDSLParser.TOr (map member_tokens l)
         ++ [algoliaDSLParser.TRParen])%list
  end.

Definition facets_tokens (facetFilters : list facet) : list algoliaDSLParser.token :=
  sep_tokens algoliaDSLParser.TAnd (map facet_tokens facetFilters).

(** What a function of the parser may answer on [ts] when it has fuel
    enough: a [SyntaxError], or a tree and what is left of [ts], with
    [slack] tokens consumed at least. *)
Definition answers (slack : nat) (ts : list algoliaDSLParser.token)
    (r : result (node * list algoliaDSLParser.token)) : Prop :=
  match r with
  | inl (SyntaxError _) => True
  | inl _ => False
  | inr p => (length (snd p) + slack <= length ts)%nat
  end.

(** Neither loop of the parser goes on at a token that is not its
    operator. *)
Definition stops (sep : algoliaDSLParser.token)
    (ts : list algoliaDSLParser.token) : Prop :=
  match ts with
  | t :: _ => t <> sep
  | [] => True
  end.
End Spec.

(** ** Fixtures *)

(** A mock index: its combinators record the expression tree. *)
Inductive tree : Type :=
| Leaf (s : string)
| TOR (a b : tree)
| TAND (a b : tree)
| TNOT (a b : tree).

Definition mock (search : list tree -> result (list item)) : Db tree :=
  {| term := Leaf; OR := TOR; AND := TAND; NOT := TNOT; SEARCH := search |}.

(** Two ways a runtime may order a pair with one call of the comparator:
    it exchanges the two when [comparefn(a, b) > 0], or when
    [comparefn(b, a) < 0]. *)
Definition orders_pair_forward
    (sort : (record -> record -> Z) -> list record -> list record) : Prop :=
  forall comparefn a b,
    sort comparefn [a; b] = if (0 <? comparefn a b)%Z then [b; a] else [a; b].

Definition orders_pair_backward
    (sort : (record -> record -> Z) -> list record -> list record) : Prop :=
  forall comparefn a b,
    sort comparefn [a; b] = if (comparefn b a <? 0)%Z then [b; a] else [a; b].

(** An index that answers every search with [result]. *)
Definition index_of (result : list item) : Db tree := mock (fun _ => ret result).

(** An index whose [SEARCH] throws. *)
Definition broken_index : Db tree :=
  mock (fun _ => throw (Error "Database is not open")).

(** A runtime whose [sort] leaves the array as it is; the requests of the
    fixtures carry no sort attribute. *)
Definition no_sort (cmp : record -> record -> Z) (l : list record) : list record := l.

Definition with_query (query : option string) (req : Request.t) : Request.t :=
  {| Request.sortAttribute := Request.sortAttribute req;
     Request.sortDesc := Request.sortDesc req;
     Request.query := query;
     Request.filters := Request.filters req;
     Request.facetFilters := Request.facetFilters req;
     Request.page := Request.page req;
     Request.hitsPerPage := Request.hitsPerPage req |}.

Definition request (query filters : option string)
    (facetFilters : option (list facet)) (page hitsPerPage : option Z)
  : Request.t :=
  {| Request.sortAttribute := None; Request.sortDesc := false;
     Request.query := query; Request.filters := filters;
     Request.facetFilters := facetFilters;
     Request.page := page; Request.hitsPerPage := hitsPerPage |}.

(** [n] stored records, numbered from 0. *)
Definition numbered (n : nat) : list item :=
  map (fun i => {| obj := {[ "_id" := JNum (Z.of_nat i); "k" := JStr "x" ]} |}) (seq 0 n).


(** ** index.js: the routes that write *)

(** A computation on the index: it starts in a state of the store, ends
    in one, and returns or throws. *)
Definition io (σ A : Type) : Type := σ -> result A * σ.

Definition io_ret {σ A} (a : A) : io σ A := fun s => (inr a, s).

Definition io_bind {σ A B} (m : io σ A) (k : A -> io σ B) : io σ B :=
  fun s =>
    match m s with
    | (inl e, s') => (inl e, s')
    | (inr a, s') => k a s'
    end.

(** [try { m } catch (error) { h }] *)
Definition io_catch {σ A} (m : io σ A) (h : exn -> io σ A) : io σ A :=
  fun s =>
    match m s with
    | (inl e, s') => h e s'
    | (inr a, s') => (inr a, s')
    end.

Notation "'let!' x := m 'in' k" := (io_bind m (fun x => k))
  (at level 10, x name, m at level 100, k at level 200) : js_scope.

(** [o.k], [undefined] when [o] has no property [k]. *)
Definition prop (o : record) (k : string) : jsval := default JUndefined (o !! k).

(** [{_id: id, ...body}]: the properties of [body] come after [_id], so
    an [_id] of [body] replaces [id]. *)
Definition with_id (id : jsval) (body : record) : record :=
  body ∪ {[ "_id" := id ]}.

(** What these routes send with [res.status(code)]: [.end()] or [.json(..)]
    with one of the bodies of [index.js]. *)
Inductive payload : Type :=
| Ended
| Message (message : string) (status : Z)
| Created (createdAt taskID : string) (objectID : jsval)
| Updated (updatedAt taskID : string) (objectID : jsval)
| Deleted (deletedAt taskID : string) (objectID : jsval)
| Batched (taskID : string) (objectIDs : list jsval)
| Queried (updatedAt taskID : string)
| Cleared (taskID : string).

Record reply : Type := { code : Z; sent : payload }.

(** An element of [body.requests] of the batch route; its [body] is an
    object. *)
Record batch_request : Type := { action : jsval; body_of : record }.

Module routes.
Section Routes.
Context {E σ : Type}.
(** The index of the route: its algebra, and its operations on the store.
    [getIndex] opens it. *)
Variable db : Db E.
Variable getIndex : io σ unit.
Variable PUT : list record -> io σ unit.
Variable DELETE : list jsval -> io σ unit.
Variable SEARCH_ : list E -> io σ (list item).
Variable INDEX_GET : string -> io σ (list record).
Variable INDEX_DELETE : list jsval -> io σ unit.
(** [existIndex(indexName, path)] *)
Variable existIndex : σ -> bool.
(** [error.notFound], [item._id] of a match, the parser, the clock
    [(new Date()).toISOString()] and the identifier [v4()]. *)
Variable notFound : exn -> bool.
Variable item_id : item -> jsval.
Variable parse : string -> result jsval.
Variable now : string.
Variable v4 : string.

(** [wrapAsyncMiddleware] on these routes. *)
Definition wrapAsyncMiddleware_io (asyncMiddleware : io σ reply) : σ -> reply * σ :=
  fun s =>
    match asyncMiddleware s with
    | (inr res, s') => (res, s')
    | (inl error, s') =>
        ({| code := 400; sent := Message "Internal server error" 500 |}, s')
    end.

(** [POST /1/indexes/:indexName] *)
Definition add_object (body : record) : io σ reply :=
  let _id := JStr v4 in
  let! _ := getIndex in
  let! _ := PUT [with_id _id body] in
  io_ret {| code := 201; sent := Created now "algolite-task-id" _id |}.

(** [request.body._id = request.body.objectID; delete request.body.objectID] *)
Definition updateObject (body : record) : record :=
  delete "objectID" (<["_id" := prop body "objectID"]> body).

(** The loop over [body.requests]: [None] when it returns at an action
    that is not supported; else the requests as the loop leaves them,
    [puts] and [deletes]. *)
Fixpoint batch_loop (requests : list batch_request)
    (puts : list record) (deletes : list jsval)
  : option (list batch_request * list record * list jsval) :=
  match requests with
  | [] => Some ([], puts, deletes)
  | request :: rest =>
      if strict_eq_str (action request) "updateObject" then
        let body := updateObject (body_of request) in
        match batch_loop rest (puts ++ [body]) deletes with
        | Some (rs, p, d) =>
            Some ({| action := action request; body_of := body |} :: rs, p, d)
        | None => None
        end
      else if strict_eq_str (action request) "deleteObject" then
        match batch_loop rest puts (deletes ++ [prop (body_of request) "objectID"]) with
        | Some (rs, p, d) => Some (request :: rs, p, d)
        | None => None
        end
      else None
  end.

(** What the batch route does after the loop. *)
Definition batch_calls (puts : list record) (deletes : list jsval)
    (objectIDs : list jsval) : io σ reply :=
  let! _ := getIndex in
  let! _ := match puts with
            | [] => io_ret tt
            | _ => PUT puts
            end in
  let! _ := match deletes with
            | [] => io_ret tt
            | _ =>
                io_catch (DELETE deletes)
                  (fun error =>
                     if notFound error then io_ret tt
                     else fun s => (inl error, s))
            end in
  io_ret {| code := 201; sent := Batched "algolite-task-id" objectIDs |}.

(** [POST /1/indexes/:indexName/batch] *)
Definition batch (requests : list batch_request) : io σ reply :=
  match batch_loop requests [] [] with
  | None => io_ret {| code := 400; sent := Ended |}
  | Some (requests', puts, deletes) =>
      batch_calls puts deletes
        (map (fun r => prop (body_of r) "objectID") requests')
  end.

(** [PUT /1/indexes/:indexName/:objectID] *)
Definition put_object (objectID : string) (body : record) : io σ reply :=
  let! _ := getIndex in
  let! failed :=
    io_catch (let! _ := DELETE [JStr objectID] in io_ret false)
      (fun error => io_ret (negb (notFound error))) in
  if failed then io_ret {| code := 500; sent := Ended |}
  else
    let! _ := PUT [with_id (JStr objectID) body] in
    io_ret {| code := 201;
              sent := Updated now "algolite-task-id" (JStr objectID) |}.

(** [DELETE /1/indexes/:indexName/:objectID]: what the handler sends, in
    order.  After [res.status(500).end()] it does not return. *)
Definition delete_object (objectID : string) : io σ (list reply) :=
  let! _ := getIndex in
  let! first :=
    io_catch (let! _ := DELETE [JStr objectID] in io_ret [])
      (fun error =>
         io_ret (if negb (notFound error)
                 then [{| code := 500; sent := Ended |}] else [])) in
  io_ret (first ++ [{| code := 200;
                       sent := Deleted now "algolite-task-id" (JStr objectID) |}])%list.

(** [POST /1/indexes/:indexName/deleteByQuery]; [facetFilters] is the
    field of the parsed [params]. *)
Definition deleteByQuery (facetFilters : option string) : io σ reply :=
  let! _ := getIndex in
  let! searchExp :=
    (fun s =>
       match facetFilters with
       | None => (inr [], s)
       | Some f =>
           if falsy (JStr f) then (inr [], s)
           else (let* e := parseAlgoliaSQL.parseAlgoliaSQL db parse f in ret [e], s)
       end) in
  match searchExp with
  | [] =>
      io_ret {| code := 400;
                sent := Message "DeleteByQuery endpoint only supports tagFilters, facetFilters, numericFilters and geoQuery condition" 400 |}
  | _ =>
      let! result := SEARCH_ searchExp in
      let ids := map item_id result in
      let! _ := INDEX_DELETE ids in
      io_ret {| code := 201; sent := Queried now "algolite-task-id" |}
  end.

(** [POST /1/indexes/:indexName/clear] *)
Definition clear : io σ reply :=
  fun s =>
    if negb (existIndex s) then (inr {| code := 400; sent := Ended |}, s)
    else
      (let! _ := getIndex in
       let! result := INDEX_GET "" in
       let ids := map (fun obj => prop obj "_id") result in
       let! _ := INDEX_DELETE ids in
       io_ret {| code := 200; sent := Cleared "algolite-task-id" |}) s.
End Routes.
End routes.

(** The requests of a batch, read one by one. *)
Definition is_update (r : batch_request) : bool :=
  strict_eq_str (action r) "updateObject".

Definition is_delete (r : batch_request) : bool :=
  strict_eq_str (action r) "deleteObject".

Definition supported (r : batch_request) : bool := is_update r || is_delete r.

Definition puts_of (requests : list batch_request) : list record :=
  map (fun r => routes.updateObject (body_of r)) (List.filter is_update requests).

Definition deletes_of (requests : list batch_request) : list jsval :=
  map (fun r => prop (body_of r) "objectID") (List.filter is_delete requests).

Definition answered_ids (requests : list batch_request) : list jsval :=
  map (fun r => if is_update r then JUndefined else prop (body_of r) "objectID")
    requests.

(** ** index.js: the recommendations route *)

(** [x === y]: two objects are never the same object here, one comes from
    the index and the other from the request. *)
Definition strict_eq (x y : jsval) : bool :=
  match x, y with
  | JUndefined, JUndefined => true
  | JBool a, JBool b => Bool.eqb a b
  | JNum a, JNum b => (a =? b)%Z
  | JStr a, JStr b => if decide (a = b) then true else false
  | _, _ => false
  end.

(** [x > y] *)
Definition js_gt (x y : jsval) : bool :=
  match x, y with
  | JStr s, JStr t => String.ltb t s
  | _, _ =>
      match ToNumber x, ToNumber y with
      | Some a, Some b => (a >? b)%Z
      | _, _ => false
      end
  end.

(** An element of [body.requests]. *)
Record recommend_request : Type := {
  indexName : jsval;
  objectID : jsval;
  maxRecommendations : option Z
}.

Module recommend.
Section Recommendations.
Context {E : Type}.
Variable getIndex : jsval -> result (Db E).
Variable sort : (record -> record -> Z) -> list record -> list record.

(** [object => ({_id: object.obj._id, name: object.obj.name,
    featuredScore: object.obj.featuredScore})] *)
Definition candidate (object : item) : record :=
  {[ "_id" := prop (obj object) "_id";
     "name" := prop (obj object) "name";
     "featuredScore" := prop (obj object) "featuredScore" ]}.

(** [(a, b) => (a.featuredScore > b.featuredScore) ? -1 : 1] *)
Definition by_score (a b : record) : Z :=
  if js_gt (prop a "featuredScore") (prop b "featuredScore") then -1 else 1.

(** [{_score: object.featuredScore, objectID: object._id, name: object.name}] *)
Definition recommendation (object : record) : record :=
  {[ "_score" := prop object "featuredScore";
     "objectID" := prop object "_id";
     "name" := prop object "name" ]}.

(** The objects of the index other than the queried one, sorted. *)
Definition objects_of (request : recommend_request) (content : list item)
  : list record :=
  sort by_score
    (filter (fun object => negb (strict_eq (prop object "_id") (objectID request)))
       (map candidate content)).

Definition numRecommendations (request : recommend_request)
    (objects : list record) : Z :=
  match maxRecommendations request with
  | Some m =>
      if (m >? 0)%Z then Z.min m (Z.of_nat (length objects))
      else Z.of_nat (length objects)
  | None => Z.of_nat (length objects)
  end.

(** The body of the loop: the [hits] of one request. *)
Definition recommend_one (request : recommend_request) : result (list record) :=
  let* db := getIndex (indexName request) in
  let* content := SEARCH db [term db "*"] in
  let objects := objects_of request content in
  ret (map recommendation
         (take (Z.to_nat (numRecommendations request objects)) objects)).


End Recommendations.
End recommend.

(** ** A store that logs the calls it gets *)
Inductive call : Type :=
| Opened
| Put (docs : list record)
| Delete (ids : list jsval)
| Searched
| Got
| IndexDelete (ids : list jsval).

Definition logged {A} (c : call) (a : A) : io (list call) A :=
  fun s => (inr a, (s ++ [c])%list).

Definition refused {A} (c : call) (e : exn) : io (list call) A :=
  fun s => (inl e, (s ++ [c])%list).

(** The error of a store that has no such key. *)
Definition NotFoundError : exn := Error "NotFound".

Definition is_not_found (e : exn) : bool :=
  match e with
  | Error m => if decide (m = "NotFound") then true else false
  | _ => false
  end.

(** ** Fixtures of the other routes *)

Definition open_log : io (list call) unit := logged Opened tt.
Definition put_log (docs : list record) : io (list call) unit := logged (Put docs) tt.
Definition delete_log (ids : list jsval) : io (list call) unit :=
  logged (Delete ids) tt.
Definition delete_refused (e : exn) (ids : list jsval) : io (list call) unit :=
  refused (Delete ids) e.
Definition search_log (result : list item) (searchExp : list tree)
  : io (list call) (list item) := logged Searched result.
Definition get_log (result : list record) (key : string)
  : io (list call) (list record) := logged Got result.
Definition index_delete_log (ids : list jsval) : io (list call) unit :=
  logged (IndexDelete ids) tt.

(** Three hits that differ in [k]. *)
Definition three_hits : list record :=
  [ {[ "k" := JNum 0 ]}; {[ "k" := JNum 1 ]}; {[ "k" := JNum 2 ]} ].

(** A batch that updates [a] and deletes [b], and the same with a request
    that is not supported. *)
Definition batch_example : list batch_request :=
  [ {| action := JStr "updateObject";
       body_of := {[ "objectID" := JStr "a"; "n" := JNum 1 ]} |};
    {| action := JStr "deleteObject";
       body_of := {[ "objectID" := JStr "b" ]} |} ].

Definition batch_with_add : list batch_request :=
  (batch_example ++ [ {| action := JStr "addObject"; body_of := ∅ |} ])%list.

(** An index of three products. *)
Definition product (id : string) (score : Z) : item :=
  {| obj := {[ "_id" := JStr id; "name" := JStr id; "featuredScore" := JNum score ]} |}.

Definition products : list item := [product "a" 3; product "b" 2; product "c" 1].

Definition related_to_a : recommend_request :=
  {| indexName := JStr "products"; objectID := JStr "a";
     maxRecommendations := Some 1%Z |}.

(** * The compiler *)
Section CompilerFacts.
Context {E : Type} (db : Db E).
Import AST parseAlgoliaSQL.

Lemma bind_inr {A B} (m : result A) (k : A -> result B) b :
  bind m k = inr b -> exists a, m = inr a /\ k a = inr b.
Proof. destruct m as [e|a]; simpl; [discriminate | eauto]. Qed.

(** On the tagged union the code is the compiler of the specification. *)
Lemma build_compile (n : node) :
  buildSearchExpression db (rule_of n) = Spec.compile db n.
Proof.
  induction n as [key value | l IHl r IHr | l IHl r IHr | operand IH].
  - reflexivity.
  - cbn. rewrite IHl, IHr. reflexivity.
  - cbn. rewrite IHl, IHr. reflexivity.
  - destruct operand; cbn in *; try reflexivity.
Qed.

Lemma parse_and_example :
  algoliaDSLParser.parse "a:1 AND b:2"
  = ret (rule_of (And (Match "a" (JNum 1)) (Match "b" (JNum 2)))).
Proof. vm_compute. reflexivity. Qed.

Lemma parse_not_example :
  algoliaDSLParser.parse "NOT a:1" = ret (rule_of (Not (Match "a" (JNum 1)))).
Proof. vm_compute. reflexivity. Qed.

(** C2: a [MATCH] compiles to the leaf string [key:value], an [AND] to
    [AND] of its compiled children, an [OR] to [OR] of its compiled
    children, a [NOT] of a [MATCH] to [NOT('*', leaf)]; on the tagged
    union the code is the compiler of the specification; the tree of
    [a:1 AND b:2] compiles to [AND(a:1, b:2)] and the tree of [NOT a:1]
    to [NOT('*', a:1)]. *)
Theorem buildSearchExpression_cases :
  (forall key value,
      buildSearchExpression db (rule_of (Match key value))
      = ret (term db (key +:+ ":" +:+ ToString value)))
  /\ (forall key value l r,
      buildSearchExpression db (JObj (JStr "AND") key value l r)
      = (let* leftExpression := buildSearchExpression db l in
         let* rightExpression := buildSearchExpression db r in
         ret (AND db leftExpression rightExpression)))
  /\ (forall key value l r,
      buildSearchExpression db (JObj (JStr "OR") key value l r)
      = (let* leftExpression := buildSearchExpression db l in
         let* rightExpression := buildSearchExpression db r in
         ret (OR db leftExpression rightExpression)))
  /\ (forall key value,
      buildSearchExpression db (rule_of (Not (Match key value)))
      = ret (NOT db (term db "*") (term db (key +:+ ":" +:+ ToString value))))
  /\ (forall n, buildSearchExpression db (rule_of n) = Spec.compile db n)
  /\ buildSearchExpression db
       (rule_of (And (Match "a" (JNum 1)) (Match "b" (JNum 2))))
     = ret (AND db (term db "a:1") (term db "b:2"))
  /\ buildSearchExpression db (rule_of (Not (Match "a" (JNum 1))))
     = ret (NOT db (term db "*") (term db "a:1")).
Proof.
  do 4 (split; [reflexivity|]).
  split; [exact build_compile|]. split; reflexivity.
Qed.

(** The same two filters from their text, through the parser. *)
Lemma compile_parse_examples :
  parseAlgoliaSQL db algoliaDSLParser.parse "a:1 AND b:2"
  = ret (AND db (term db "a:1") (term db "b:2"))
  /\ parseAlgoliaSQL db algoliaDSLParser.parse "NOT a:1"
     = ret (NOT db (term db "*") (term db "a:1"))
  /\ parseAlgoliaSQL db algoliaDSLParser.parse "NOT (a:1 AND b:2)"
     = throw (Error "NOT only supports MATCH").
Proof.
  unfold parseAlgoliaSQL. split; [|split].
  - rewrite parse_and_example. reflexivity.
  - rewrite parse_not_example. reflexivity.
  - reflexivity.
Qed.

Lemma unknown_token_throws token key value l r :
  known_token token = false ->
  buildSearchExpression db (JObj token key value l r)
  = throw (Error "UNKNOWN TOKEN").
Proof.
  unfold known_token. intros H.
  repeat (apply orb_false_elim in H; destruct H as [H ?]).
  cbn. rewrite H, H0, H1, H2. reflexivity.
Qed.

Lemma not_of_compound_throws operand :
  Rule operand ->
  (forall key value, operand <> rule_of (Match key value)) ->
  buildSearchExpression db (JObj (JStr "NOT") JUndefined operand JUndefined JUndefined)
  = throw (Error "NOT only supports MATCH").
Proof.
  intros HR Hne.
  destruct HR as [key value | l r _ _ | l r _ _ | operand _ | token key value l r H].
  - exfalso. apply (Hne key value). reflexivity.
  - reflexivity.
  - reflexivity.
  - reflexivity.
  - unfold known_token in H.
    repeat (apply orb_false_elim in H; destruct H as [H ?]).
    cbn. rewrite H. reflexivity.
Qed.

Lemma rule_outcome r :
  Rule r ->
  (Supported r /\ exists e, buildSearchExpression db r = inr e)
  \/ (~ Supported r /\
      (buildSearchExpression db r = throw (Error "NOT only supports MATCH")
       \/ buildSearchExpression db r = throw (Error "UNKNOWN TOKEN"))).
Proof.
  induction 1 as [key value | l r Hl IHl Hr IHr | l r Hl IHl Hr IHr
                 | operand Ho IHo | token key value l r H].
  - left. split; [constructor | eexists; reflexivity].
  - destruct IHl as [[Sl [a Ha]] | [Nl El]].
    + destruct IHr as [[Sr [b Hb]] | [Nr Er]].
      * left. split; [by constructor|]. cbn. rewrite Ha, Hb. by eexists.
      * right. split; [intros S; inversion S; subst; contradiction|].
        cbn. rewrite Ha. destruct Er as [-> | ->]; [left|right]; reflexivity.
    + right. split; [intros S; inversion S; subst; contradiction|].
      cbn. destruct El as [-> | ->]; [left|right]; reflexivity.
  - destruct IHl as [[Sl [a Ha]] | [Nl El]].
    + destruct IHr as [[Sr [b Hb]] | [Nr Er]].
      * left. split; [by constructor|]. cbn. rewrite Ha, Hb. by eexists.
      * right. split; [intros S; inversion S; subst; contradiction|].
        cbn. rewrite Ha. destruct Er as [-> | ->]; [left|right]; reflexivity.
    + right. split; [intros S; inversion S; subst; contradiction|].
      cbn. destruct El as [-> | ->]; [left|right]; reflexivity.
  - destruct Ho as [key value | l r _ _ | l r _ _ | operand _ | token key value l r H].
    + left. split; [apply Supported_Not | eexists; reflexivity].
    + right. split; [intros S; inversion S | left; reflexivity].
    + right. split; [intros S; inversion S | left; reflexivity].
    + right. split; [intros S; inversion S | left; reflexivity].
    + right. split.
      * intros S. inversion S; subst. discriminate H.
      * left. unfold known_token in H.
        repeat (apply orb_false_elim in H; destruct H as [H ?]).
        cbn. rewrite H. reflexivity.
  - right. split.
    + intros S. inversion S; subst; discriminate H.
    + right. by apply unknown_token_throws.
Qed.

(** C3: the compiler throws at exactly two node shapes, a [NOT] whose
    operand is not a [MATCH] ([Error "NOT only supports MATCH"]) and a
    node whose token is none of the four ([Error "UNKNOWN TOKEN"]); the
    two errors differ; a rule compiles exactly when it has no such node,
    and otherwise throws one of the two. *)
Theorem buildSearchExpression_failures :
  (forall operand,
      Rule operand ->
      (forall key value, operand <> rule_of (Match key value)) ->
      buildSearchExpression db
        (JObj (JStr "NOT") JUndefined operand JUndefined JUndefined)
      = throw (Error "NOT only supports MATCH"))
  /\ (forall token key value l r,
      known_token token = false ->
      buildSearchExpression db (JObj token key value l r)
      = throw (Error "UNKNOWN TOKEN"))
  /\ Error "NOT only supports MATCH" <> Error "UNKNOWN TOKEN"
  /\ (forall r,
      Rule r ->
      ((exists e, buildSearchExpression db r = inr e) <-> Supported r)
      /\ (~ Supported r ->
          buildSearchExpression db r = throw (Error "NOT only supports MATCH")
          \/ buildSearchExpression db r = throw (Error "UNKNOWN TOKEN"))).
Proof.
  split; [exact not_of_compound_throws|].
  split; [exact unknown_token_throws|].
  split; [discriminate|].
  intros r HR. destruct (rule_outcome r HR) as [[S Hc] | [N He]].
  - split; [tauto | contradiction].
  - split; [|intros _; exact He].
    split; [|contradiction].
    intros [e He']. destruct He as [He | He]; rewrite He in He'; discriminate.
Qed.
End CompilerFacts.

(** * The query route *)
Section RouteFacts.
Context {E : Type} (db : Db E).
Variable parse : string -> result jsval.
Variable sort : (record -> record -> Z) -> list record -> list record.
Import server.

Lemma falsy_JStr s : falsy (JStr s) = true <-> s = "".
Proof. cbn. destruct (decide (s = "")); split; congruence. Qed.

(** C8: a present, non-empty [query] is searched as it is; a present,
    empty one is replaced by ['*']; an absent one adds no expression:
    the search is then issued with the filter and facet clauses only. *)
Theorem text_clause_cases (req : Request.t) :
  (forall q, Request.query req = Some q -> q <> "" ->
     search_expressions db parse req
     = (let* rest := search_expressions db parse (with_query None req) in
        ret (term db q :: rest)))
  /\ (Request.query req = Some "" ->
     search_expressions db parse req
     = (let* rest := search_expressions db parse (with_query None req) in
        ret (term db "*" :: rest)))
  /\ (Request.query req = None ->
     search_expressions db parse req
     = (let* filterExp := filter_clause db parse (Request.filters req) in
        let* facetExp := facet_clause db parse (Request.facetFilters req) in
        ret (filterExp ++ facetExp)%list)).
Proof.
  unfold search_expressions. cbn [with_query Request.query Request.filters Request.facetFilters].
  split; [|split].
  - intros q -> Hq. cbn [text_clause].
    destruct (falsy (JStr q)) eqn:F; [apply falsy_JStr in F; contradiction|].
    destruct (filter_clause db parse _); [reflexivity|].
    destruct (facet_clause db parse _); reflexivity.
  - intros ->. cbn [text_clause].
    destruct (filter_clause db parse _); [reflexivity|].
    destruct (facet_clause db parse _); reflexivity.
  - intros ->. reflexivity.
Qed.

(** What a request that is answered has gone through. *)
Lemma query_route_inr req res :
  query_route db parse sort req = inr res ->
  exists searchExp result,
    search_expressions db parse req = inr searchExp
    /\ SEARCH db searchExp = inr result
    /\ res = {| status := 200;
                json := QueryBody
                  {| Result.hits :=
                       paginate
                         (sort_hits sort (Request.sortAttribute req)
                            (Request.sortDesc req) (map to_hit result))
                         (default 0 (Request.page req))
                         (default 20 (Request.hitsPerPage req));
                     Result.params := "";
                     Result.query := default "" (Request.query req);
                     Result.page := default 0 (Request.page req);
                     Result.nbHits := Z.of_nat (length result);
                     Result.nbPages :=
                       Math_ceil_div (Z.of_nat (length result))
                         (default 20 (Request.hitsPerPage req));
                     Result.hitsPerPage := default 20 (Request.hitsPerPage req) |} |}.
Proof.
  unfold query_route. intros H.
  apply bind_inr in H as (searchExp & Hs & H).
  apply bind_inr in H as (result & Hr & H).
  exists searchExp, result. repeat split; try assumption.
  cbv [ret] in H. congruence.
Qed.

(** ** Pages *)



(** ** Hits *)

(** C9: the hit of a raw match has [objectID] with the value of [_id]
    ([undefined] when the record has none), has no [_id], and has every
    other property as the record has it. *)
Theorem to_hit_renames_id (it : item) :
  to_hit it !! "objectID" = Some (default JUndefined (obj it !! "_id"))
  /\ to_hit it !! "_id" = None
  /\ (forall k, k <> "objectID" -> k <> "_id" -> to_hit it !! k = obj it !! k).
Proof.
  unfold to_hit. split; [|split].
  - rewrite lookup_delete_ne by discriminate. apply lookup_insert_eq.
  - apply lookup_delete_eq.
  - intros k H1 H2.
    rewrite lookup_delete_ne by congruence.
    apply lookup_insert_ne. congruence.
Qed.

Lemma slice_window {A} (l : list A) (start end_ : Z) :
  (0 <= start)%Z -> (0 <= end_)%Z ->
  slice l start end_
  = take (Z.to_nat end_ - Z.to_nat start) (drop (Z.to_nat start) l).
Proof.
  intros Hs He. unfold slice.
  destruct (Z.ltb_spec start 0) as [|_]; [lia|].
  destruct (Z.ltb_spec end_ 0) as [|_]; [lia|].
  set (len := Z.of_nat (length l)).
  destruct (Z_le_gt_dec start len) as [Hle | Hgt].
  - rewrite (Z.min_l start len) by lia.
    destruct (Z_le_gt_dec end_ len) as [Hle' | Hgt'].
    + rewrite (Z.min_l end_ len) by lia. f_equal. lia.
    + rewrite (Z.min_r end_ len) by lia.
      rewrite !take_ge; [reflexivity | |]; rewrite length_drop; lia.
  - rewrite (Z.min_r start len) by lia.
    rewrite !drop_ge by lia. by rewrite !take_nil.
Qed.

Lemma slice_sublist {A} (l : list A) (start end_ : Z) :
  slice l start end_ `sublist_of` l.
Proof.
  unfold slice. etrans; [apply sublist_take | apply sublist_drop].
Qed.

(** Without a sort attribute the hits of the answer are hits of raw
    matches, in the order of the search. *)
Lemma answered_hits_unsorted req res :
  query_route db parse sort req = inr res ->
  Request.sortAttribute req = None ->
  exists searchExp result r,
    SEARCH db searchExp = inr result
    /\ json res = QueryBody r
    /\ Result.hits r `sublist_of` map to_hit result.
Proof.
  intros H Hsort. apply query_route_inr in H as (searchExp & result & _ & Hr & ->).
  exists searchExp, result. eexists. split; [exact Hr|]. split; [reflexivity|].
  cbn [Result.hits]. rewrite Hsort. apply slice_sublist.
Qed.

(** The page the route returns holds [hitsPerPage - 1] hits at most. *)
Lemma paginate_window (hits : list record) (page hitsPerPage : Z) :
  (0 <= page)%Z -> (0 < hitsPerPage)%Z ->
  paginate hits page hitsPerPage
  = take (Z.to_nat (hitsPerPage - 1)) (drop (Z.to_nat (page * hitsPerPage)) hits).
Proof.
  intros Hp Hh. unfold paginate.
  rewrite slice_window by nia. f_equal. nia.
Qed.

Lemma paginate_length (hits : list record) (page hitsPerPage : Z) :
  (0 <= page)%Z -> (0 < hitsPerPage)%Z ->
  Z.of_nat (length (paginate hits page hitsPerPage))
  = Z.min (hitsPerPage - 1)
          (Z.max 0 (Z.of_nat (length hits) - page * hitsPerPage)).
Proof.
  intros Hp Hh. rewrite paginate_window by assumption.
  rewrite length_take, length_drop. nia.
Qed.

(** ** Errors *)

(** C5, as the code has it: when the text of [filters], or else of
    [facetFilters], does not parse or compile, the route throws that
    error and the client is answered with status 400 and the message
    ["Internal server error"], the answer to whatever the route throws. *)
Theorem filter_failure_response (req : Request.t) (e : exn) :
  (forall f, Request.filters req = Some f -> f <> "" ->
     parseAlgoliaSQL.parseAlgoliaSQL db parse f = inl e ->
     query_route db parse sort req = inl e)
  /\ (forall filterExp ff,
     filter_clause db parse (Request.filters req) = inr filterExp ->
     Request.facetFilters req = Some ff ->
     parseAlgoliaSQL.parseAlgoliaSQL db parse (facet_string ff) = inl e ->
     query_route db parse sort req = inl e)
  /\ (query_route db parse sort req = inl e ->
     query_endpoint db parse sort req
     = {| status := 400; json := MessageBody "Internal server error" 500 |}).
Proof.
  split; [|split].
  - intros f Hf Hne He. unfold query_route, search_expressions.
    rewrite Hf. cbn [filter_clause].
    destruct (falsy (JStr f)) eqn:F; [apply falsy_JStr in F; contradiction|].
    rewrite He. reflexivity.
  - intros filterExp ff Hf Hff He. unfold query_route, search_expressions.
    rewrite Hf, Hff. cbn [facet_clause bind]. rewrite He. reflexivity.
  - intros H. unfold query_endpoint. rewrite H. reflexivity.
Qed.
End RouteFacts.

(** * The route on the fixtures *)

(** C1: 25 hits in pages of 20.  The first page comes back with 19 hits,
    the hits 0 to 18, where the window of the page holds 20; [nbHits] is
    25 and [nbPages] 2. *)
Theorem first_page_misses_last_hit :
  exists r,
    server.query_endpoint (index_of (numbered 25)) algoliaDSLParser.parse no_sort
      (request None None None (Some 0%Z) (Some 20%Z))
    = {| status := 200; json := QueryBody r |}
    /\ Result.hits r = take 19 (map server.to_hit (numbered 25))
    /\ length (Result.hits r) = 19%nat
    /\ Result.nbHits r = 25%Z
    /\ Result.nbPages r = 2%Z.
Proof.
  eexists. split; [reflexivity|].
  cbn [Result.hits Result.nbHits Result.nbPages].
  repeat split; vm_compute; reflexivity.
Qed.

(** C5, as stated: a request whose filter does not compile, one whose
    filter does not parse, and a request that fails on a fault of the
    index are answered alike. *)
Lemma filter_failure_not_distinguished :
  let unsupported := request None (Some "NOT (a:1 AND b:2)") None None None in
  let malformed := request None (Some "a:1 AND") None None None in
  let plain := request (Some "x") None None None None in
  server.query_route (index_of []) algoliaDSLParser.parse no_sort unsupported
  = throw (Error "NOT only supports MATCH")
  /\ server.query_route (index_of []) algoliaDSLParser.parse no_sort malformed
     = throw (SyntaxError "end of input")
  /\ server.query_route broken_index algoliaDSLParser.parse no_sort plain
     = throw (Error "Database is not open")
  /\ server.query_endpoint (index_of []) algoliaDSLParser.parse no_sort unsupported
     = server.query_endpoint broken_index algoliaDSLParser.parse no_sort plain
  /\ server.query_endpoint (index_of []) algoliaDSLParser.parse no_sort malformed
     = server.query_endpoint broken_index algoliaDSLParser.parse no_sort plain.
Proof. vm_compute. repeat split. Qed.

(** * The parser on facet filters *)
Section LexerFacts.
Import algoliaDSLParser Spec.

Lemma app_cons c s t : String c s +:+ t = String c (s +:+ t).
Proof. reflexivity. Qed.

Lemma app_nil_l s : "" +:+ s = s.
Proof. reflexivity. Qed.

Lemma app_nil_r s : s +:+ "" = s.
Proof. induction s as [|c s IH]; [reflexivity|]. by rewrite app_cons, IH. Qed.

Lemma app_assoc s t u : (s +:+ t) +:+ u = s +:+ (t +:+ u).
Proof. induction s as [|c s IH]; [reflexivity|]. by rewrite !app_cons, IH. Qed.

Lemma word_char_not_special c :
  is_word_char c = true ->
  is_space c = false /\ Ascii.eqb c "(" = false
  /\ Ascii.eqb c ")" = false /\ Ascii.eqb c ":" = false.
Proof.
  unfold is_word_char. rewrite !andb_true_iff, !negb_true_iff. tauto.
Qed.

Lemma tokenize_word_char cur c s :
  is_word_char c = true ->
  tokenize cur (String c s) = tokenize (cur +:+ String c "") s.
Proof.
  intros (H1 & H2 & H3 & H4)%word_char_not_special.
  cbn [tokenize]. by rewrite H1, H2, H3, H4.
Qed.

(** A run of word characters is read into the current word. *)
Lemma tokenize_word cur w s :
  all_chars is_word_char w = true ->
  tokenize cur (w +:+ s) = tokenize (cur +:+ w) s.
Proof.
  revert cur. induction w as [|c w IH]; intros cur Hw.
  - by rewrite app_nil_l, app_nil_r.
  - cbn [all_chars] in Hw. apply andb_true_iff in Hw as [Hc Hw].
    rewrite app_cons, tokenize_word_char by assumption.
    rewrite IH by assumption. by rewrite app_assoc, app_cons, app_nil_l.
Qed.

Lemma letter_word_char c : is_letter c = true -> is_word_char c = true.
Proof.
  destruct c as [[] [] [] [] [] [] [] []]; vm_compute; congruence.
Qed.

Lemma digit_word_char c : is_digit c = true -> is_word_char c = true.
Proof.
  destruct c as [[] [] [] [] [] [] [] []]; vm_compute; congruence.
Qed.

Lemma all_chars_impl (p q : ascii -> bool) w :
  (forall c, p c = true -> q c = true) ->
  all_chars p w = true -> all_chars q w = true.
Proof.
  intros Hpq. induction w as [|c w IH]; [done|]. cbn [all_chars].
  rewrite !andb_true_iff. intros [? ?]. auto.
Qed.

Lemma identifier_word k :
  is_identifier k = true -> k <> "" /\ all_chars is_word_char k = true.
Proof.
  destruct k as [|c k]; [discriminate|]. cbn [is_identifier all_chars].
  rewrite !andb_true_iff. intros [Hc Hk]. split; [discriminate|]. split.
  - by apply letter_word_char.
  - revert Hk. apply all_chars_impl. intros d [?|?]%orb_true_iff;
      [by apply letter_word_char | by apply digit_word_char].
Qed.

Lemma not_keyword_token w : is_keyword w = false -> word_token w = TWord w.
Proof.
  unfold is_keyword, word_token.
  repeat (destruct (decide _); [discriminate|]). reflexivity.
Qed.

Lemma tokenize_boundary cur s :
  boundary s -> cur <> "" ->
  tokenize cur s = word_token cur :: tokenize "" s.
Proof.
  intros Hs Hcur.
  assert (Hf : flush cur = [word_token cur]).
  { unfold flush. by destruct (decide (cur = "")). }
  destruct Hs; cbn [tokenize]; rewrite ?Hf; reflexivity.
Qed.

Lemma split_colon_app s k v :
  split_colon s = Some (k, v) -> s = k +:+ ":" +:+ v.
Proof.
  revert k. induction s as [|c s IH]; intros k; cbn [split_colon]; [discriminate|].
  destruct (Ascii.eqb_spec c ":") as [->|Hc].
  - intros [= <- <-]. reflexivity.
  - destruct (split_colon s) as [[k' v']|]; [|discriminate].
    intros [= <- <-]. rewrite app_cons. f_equal. by apply IH.
Qed.

(** A plain member is three tokens. *)
Lemma tokenize_member m s :
  plain_member m = true -> boundary s ->
  tokenize "" (m +:+ s) = (member_tokens m ++ tokenize "" s)%list.
Proof.
  unfold plain_member, member_tokens. intros Hm Hs.
  destruct (split_colon m) as [[k v]|] eqn:Hsplit; [|discriminate].
  apply split_colon_app in Hsplit as ->.
  apply andb_true_iff in Hm as [Hk Hv].
  unfold plain_key in Hk. apply andb_true_iff in Hk as [Hid Hkw].
  apply negb_true_iff in Hkw. apply identifier_word in Hid as [Hne Hkc].
  assert (Hv' : v <> "" /\ all_chars is_word_char v = true /\ is_keyword v = false).
  { unfold plain_value in Hv. destruct v; [discriminate|].
    apply andb_true_iff in Hv as [? ?%negb_true_iff]. by repeat split. }
  destruct Hv' as (Hvne & Hvc & Hvk).
  rewrite !app_assoc, tokenize_word, app_nil_l by assumption.
  rewrite app_cons, app_nil_l. cbn [tokenize].
  change (is_space ":") with false. cbn [Ascii.eqb Bool.eqb].
  assert (Hf : flush k = [word_token k]).
  { unfold flush. by destruct (decide (k = "")). }
  rewrite Hf, (not_keyword_token k) by assumption.
  rewrite tokenize_word, app_nil_l by assumption.
  rewrite tokenize_boundary by assumption.
  by rewrite (not_keyword_token v).
Qed.

Local Open Scope list_scope.

Lemma tokenize_or s : tokenize "" (" OR " +:+ s) = TOr :: tokenize "" s.
Proof. reflexivity. Qed.

Lemma tokenize_and s : tokenize "" (" AND " +:+ s) = TAnd :: tokenize "" s.
Proof. reflexivity. Qed.

Lemma tokenize_rparen s : tokenize "" (")" +:+ s) = TRParen :: tokenize "" s.
Proof. reflexivity. Qed.

Lemma tokenize_lparen s : tokenize "" ("(" +:+ s) = TLParen :: tokenize "" s.
Proof. reflexivity. Qed.

Lemma tokenize_members sep sept l s :
  (forall t, tokenize "" (sep +:+ t) = sept :: tokenize "" t) ->
  (forall t, boundary (sep +:+ t)) ->
  forallb plain_member l = true -> boundary s ->
  tokenize "" (join sep l +:+ s)
  = sep_tokens sept (map member_tokens l) ++ tokenize "" s.
Proof.
  intros Hsep Hb. revert s.
  induction l as [|m l IH]; intros s Hl Hs; [reflexivity|].
  cbn [forallb] in Hl. apply andb_true_iff in Hl as [Hm Hl].
  destruct l as [|m' l'].
  - cbn [join map sep_tokens tail_tokens flat_map].
    rewrite List.app_nil_r. by apply tokenize_member.
  - change (join sep (m :: m' :: l')) with (m +:+ sep +:+ join sep (m' :: l')).
    rewrite !app_assoc.
    rewrite tokenize_member by (assumption || apply Hb).
    rewrite Hsep, IH by assumption.
    cbn [map sep_tokens tail_tokens flat_map].
    rewrite <- !List.app_assoc. reflexivity.
Qed.

Lemma tokenize_piece f s :
  plain_facet f = true -> boundary s ->
  tokenize "" (server.piece f +:+ s) = facet_tokens f ++ tokenize "" s.
Proof.
  intros Hf Hs.
  destruct f as [m | l]; cbn [server.piece facet_tokens plain_facet] in *.
  - by apply tokenize_member.
  - assert (Hl : forallb plain_member l = true) by (by destruct l).
    rewrite !app_assoc, tokenize_lparen.
    rewrite (tokenize_members " OR " TOr l (")" +:+ s) tokenize_or
               (fun t => boundary_space _) Hl (boundary_paren s)).
    rewrite tokenize_rparen.
    rewrite <- List.app_comm_cons, <- List.app_assoc. reflexivity.
Qed.

Lemma tokenize_pieces ff s :
  forallb plain_facet ff = true -> boundary s ->
  tokenize "" (join " AND " (map server.piece ff) +:+ s)
  = sep_tokens TAnd (map facet_tokens ff) ++ tokenize "" s.
Proof.
  revert s. induction ff as [|f ff IH]; intros s Hff Hs; [reflexivity|].
  cbn [forallb] in Hff. apply andb_true_iff in Hff as [Hf Hff].
  destruct ff as [|f' ff'].
  - cbn [join map sep_tokens tail_tokens flat_map].
    rewrite List.app_nil_r. by apply tokenize_piece.
  - change (join " AND " (map server.piece (f :: f' :: ff')))
      with (server.piece f +:+ " AND "
            +:+ join " AND " (map server.piece (f' :: ff'))).
    rewrite !app_assoc.
    rewrite tokenize_piece by (assumption || apply boundary_space).
    rewrite tokenize_and, IH by assumption.
    cbn [map sep_tokens tail_tokens flat_map].
    rewrite <- !List.app_assoc. reflexivity.
Qed.

(** The tokens of the text the route builds from plain facet filters. *)
Lemma tokenize_facet_string ff :
  plain_facets ff = true ->
  tokenize "" (server.facet_string ff) = facets_tokens ff.
Proof.
  intros Hff.
  assert (H : forallb plain_facet ff = true) by (by destruct ff).
  pose proof (tokenize_pieces ff "" H boundary_end) as Ht.
  rewrite app_nil_r in Ht. cbn [tokenize flush] in Ht.
  rewrite (right_id [] (++)) in Ht. exact Ht.
Qed.
End LexerFacts.

Section ParserFacts.
Import AST algoliaDSLParser Spec.
Local Open Scope list_scope.

(** One step of each function of the parser. *)
Lemma parse_or_S fuel ts :
  parse_or (S fuel) ts
  = (let* p := parse_and fuel ts in or_loop fuel (fst p) (snd p)).
Proof. reflexivity. Qed.

Lemma parse_and_S fuel ts :
  parse_and (S fuel) ts
  = (let* p := parse_unary fuel ts in and_loop fuel (fst p) (snd p)).
Proof. reflexivity. Qed.

Lemma or_loop_S fuel acc ts' :
  or_loop (S fuel) acc (TOr :: ts')
  = (let* p := parse_and fuel ts' in or_loop fuel (Or acc (fst p)) (snd p)).
Proof. reflexivity. Qed.

Lemma and_loop_S fuel acc ts' :
  and_loop (S fuel) acc (TAnd :: ts')
  = (let* p := parse_unary fuel ts' in and_loop fuel (And acc (fst p)) (snd p)).
Proof. reflexivity. Qed.

Lemma parse_unary_paren fuel ts' :
  parse_unary (S fuel) (TLParen :: ts')
  = (let* p := parse_or fuel ts' in
     match snd p with
     | TRParen :: rest => ret (fst p, rest)
     | rest => unexpected rest
     end).
Proof. reflexivity. Qed.

Lemma and_loop_stops fuel acc ts :
  (1 <= fuel)%nat -> stops TAnd ts -> and_loop fuel acc ts = ret (acc, ts).
Proof.
  destruct fuel as [|fuel]; [lia|]. intros _.
  destruct ts as [|[] ts]; cbn; try reflexivity. congruence.
Qed.

Lemma or_loop_stops fuel acc ts :
  (1 <= fuel)%nat -> stops TOr ts -> or_loop fuel acc ts = ret (acc, ts).
Proof.
  destruct fuel as [|fuel]; [lia|]. intros _.
  destruct ts as [|[] ts]; cbn; try reflexivity. congruence.
Qed.

(** With the fuel [parse] gives it the parser does not run out: it
    answers with a tree or with a [SyntaxError]. *)
Lemma unexpected_answers slack ts rest : answers slack ts (unexpected rest).
Proof. by destruct rest. Qed.

Lemma answers_bind slack slack' ts ts' m k :
  answers slack' ts' m ->
  (forall p, (length (snd p) + slack' <= length ts')%nat -> answers slack ts (k p)) ->
  answers slack ts (bind m k).
Proof.
  destruct m as [[]|p]; cbn; try done. intros Hp Hk. by apply Hk.
Qed.

Lemma parser_fuel fuel : forall ts,
  ((3 * length ts + 1 <= fuel)%nat -> answers 1 ts (parse_unary fuel ts))
  /\ ((3 * length ts + 2 <= fuel)%nat -> answers 1 ts (parse_and fuel ts))
  /\ ((3 * length ts + 3 <= fuel)%nat -> answers 1 ts (parse_or fuel ts))
  /\ (forall acc, (3 * length ts + 1 <= fuel)%nat -> answers 0 ts (and_loop fuel acc ts))
  /\ (forall acc, (3 * length ts + 2 <= fuel)%nat -> answers 0 ts (or_loop fuel acc ts)).
Proof.
  induction fuel as [|fuel IH]; intros ts; [repeat split; intros; lia|].
  assert (IHu := fun ts => proj1 (IH ts)).
  assert (IHa := fun ts => proj1 (proj2 (IH ts))).
  assert (IHo := fun ts => proj1 (proj2 (proj2 (IH ts)))).
  assert (IHal := fun ts => proj1 (proj2 (proj2 (proj2 (IH ts))))).
  assert (IHol := fun ts => proj2 (proj2 (proj2 (proj2 (IH ts))))).
  clear IH. split; [|split; [|split; [|split]]].
  - intros Hfuel.
    destruct ts as [|t ts]; [exact I|]. cbn [length] in Hfuel.
    destruct t; try exact I.
    + eapply answers_bind; [apply (IHu ts); lia|].
      intros p Hp. cbn -[Nat.mul]. lia.
    + eapply answers_bind; [apply (IHo ts); lia|].
      intros p Hp. destruct (snd p) as [|[] rest] eqn:Hrest;
        try apply unexpected_answers.
      cbn in *. lia.
    + destruct ts as [|t1 ts]; [exact I|].
      destruct t1; try exact I.
      destruct ts as [|t2 ts]; [exact I|].
      destruct t2; try exact I.
      destruct (is_identifier w) eqn:Hid; cbn; rewrite Hid; [cbn; lia | exact I].
  - intros Hfuel. rewrite parse_and_S.
    eapply answers_bind; [apply (IHu ts); lia|].
    intros p Hp.
    pose proof (IHal (snd p) (fst p)) as H.
    destruct (and_loop fuel (fst p) (snd p)) as [[]|q]; cbn in *; try (apply H; lia).
    assert (length (snd q) + 0 <= length (snd p))%nat by (apply H; lia). lia.
  - intros Hfuel. rewrite parse_or_S.
    eapply answers_bind; [apply (IHa ts); lia|].
    intros p Hp.
    pose proof (IHol (snd p) (fst p)) as H.
    destruct (or_loop fuel (fst p) (snd p)) as [[]|q]; cbn in *; try (apply H; lia).
    assert (length (snd q) + 0 <= length (snd p))%nat by (apply H; lia). lia.
  - intros acc Hfuel.
    destruct ts as [|t ts]; [cbn; lia|]. cbn [length] in Hfuel.
    destruct t; try (cbn; lia).
    rewrite and_loop_S.
    eapply answers_bind; [apply (IHu ts); lia|].
    intros p Hp.
    pose proof (IHal (snd p) (And acc (fst p))) as H.
    destruct (and_loop fuel _ (snd p)) as [[]|q]; cbn in *; try (apply H; lia).
    assert (length (snd q) + 0 <= length (snd p))%nat by (apply H; lia). lia.
  - intros acc Hfuel.
    destruct ts as [|t ts]; [cbn; lia|]. cbn [length] in Hfuel.
    destruct t; try (cbn; lia).
    rewrite or_loop_S.
    eapply answers_bind; [apply (IHa ts); lia|].
    intros p Hp.
    pose proof (IHol (snd p) (Or acc (fst p))) as H.
    destruct (or_loop fuel _ (snd p)) as [[]|q]; cbn in *; try (apply H; lia).
    assert (length (snd q) + 0 <= length (snd p))%nat by (apply H; lia). lia.
Qed.

Lemma parse_total text :
  (exists rule, parse text = ret rule)
  \/ (exists found, parse text = throw (SyntaxError found)).
Proof.
  unfold parse. set (ts := tokenize "" text).
  pose proof (proj1 (proj2 (proj2 (parser_fuel (fuel_for ts) ts)))) as H.
  unfold fuel_for in *.
  destruct (parse_or (3 * length ts + 3) ts) as [[]|[n rest]];
    cbn -[Nat.mul] in *; try (exfalso; apply H; lia).
  - right. eauto.
  - destruct rest as [|t rest]; [left; eauto | right; cbn; eauto].
Qed.

Lemma plain_member_node m :
  plain_member m = true ->
  exists k v, split_colon m = Some (k, v) /\ is_identifier k = true
              /\ match_of m = Some (Match k (literal v)).
Proof.
  unfold plain_member, match_of, plain_key.
  destruct (split_colon m) as [[k v]|]; [|discriminate].
  rewrite !andb_true_iff. intros [[Hid _] _]. by exists k, v.
Qed.

Lemma parse_unary_member fuel m n rest :
  (1 <= fuel)%nat -> plain_member m = true -> match_of m = Some n ->
  parse_unary fuel (member_tokens m ++ rest) = ret (n, rest).
Proof.
  destruct fuel as [|fuel]; [lia|]. intros _.
  intros (k & v & Hs & Hid & Hn)%plain_member_node Hm.
  unfold member_tokens. rewrite Hs. cbn. rewrite Hid. congruence.
Qed.

Lemma parse_and_member fuel m n rest :
  (2 <= fuel)%nat ->
  plain_member m = true -> match_of m = Some n -> stops TAnd rest ->
  parse_and fuel (member_tokens m ++ rest) = ret (n, rest).
Proof.
  destruct fuel as [|fuel]; [lia|]. intros Hfuel Hm Hn Hrest.
  rewrite parse_and_S.
  rewrite (parse_unary_member _ m n rest) by (assumption || lia).
  cbn [bind ret fst snd]. apply and_loop_stops; [lia | assumption].
Qed.

Lemma all_some_cons {A} (o : option A) l r :
  all_some (o :: l) = Some r ->
  exists a r', o = Some a /\ all_some l = Some r' /\ r = a :: r'.
Proof.
  cbn. destruct o as [a|]; [|discriminate].
  destruct (all_some l) as [r'|]; [|discriminate].
  intros [= <-]. eauto.
Qed.

Lemma tail_tokens_cons sep p ps rest :
  tail_tokens sep (p :: ps) ++ rest = sep :: p ++ tail_tokens sep ps ++ rest.
Proof.
  unfold tail_tokens. cbn [flat_map].
  rewrite <- List.app_assoc. reflexivity.
Qed.

Lemma stops_tail sep sep' (l : list string) rest :
  sep <> sep' -> stops sep' rest ->
  stops sep' (tail_tokens sep (map member_tokens l) ++ rest).
Proof. intros Hne Hrest. destruct l; [exact Hrest | exact Hne]. Qed.

(** The members after the first of a group. *)
Lemma or_loop_members l : forall fuel acc ns rest,
  forallb plain_member l = true ->
  all_some (map match_of l) = Some ns ->
  stops TOr rest -> stops TAnd rest ->
  (length l + 3 <= fuel)%nat ->
  or_loop fuel acc (tail_tokens TOr (map member_tokens l) ++ rest)
  = ret (fold_left Or ns acc, rest).
Proof.
  induction l as [|m l IH]; intros fuel acc ns rest Hl Hns Hor Hand Hfuel.
  - cbn in Hns. injection Hns as <-.
    apply or_loop_stops; [lia | assumption].
  - cbn [forallb] in Hl. apply andb_true_iff in Hl as [Hm Hl].
    cbn [map] in Hns. apply all_some_cons in Hns as (n & ns' & Hn & Hns & ->).
    cbn [length] in Hfuel.
    destruct fuel as [|fuel]; [lia|].
    cbn [map]. rewrite tail_tokens_cons, or_loop_S.
    rewrite (parse_and_member fuel m n); try assumption; try lia.
    + cbn [bind ret fst snd fold_left]. apply IH; try assumption. lia.
    + by apply stops_tail.
Qed.

Lemma member_tokens_length m :
  plain_member m = true -> length (member_tokens m) = 3%nat.
Proof.
  intros (k & v & Hs & _)%plain_member_node.
  unfold member_tokens. by rewrite Hs.
Qed.

Lemma tail_members_length sep l :
  forallb plain_member l = true ->
  length (tail_tokens sep (map member_tokens l)) = (4 * length l)%nat.
Proof.
  induction l as [|m l IH]; [reflexivity|]. cbn [forallb map].
  intros [Hm Hl]%andb_true_iff.
  pose proof (tail_tokens_cons sep (member_tokens m) (map member_tokens l) []) as H.
  rewrite !List.app_nil_r in H. rewrite H. cbn [length].
  rewrite length_app, member_tokens_length, IH by assumption. lia.
Qed.

Lemma plain_members_nodes l :
  forallb plain_member l = true ->
  exists ns, all_some (map match_of l) = Some ns.
Proof.
  induction l as [|m l IH]; [by exists []|]. cbn [forallb map].
  intros [Hm Hl]%andb_true_iff.
  apply plain_member_node in Hm as (k & v & _ & _ & Hn).
  destruct (IH Hl) as [ns Hns]. cbn. rewrite Hn, Hns. eauto.
Qed.

Lemma plain_facet_group f :
  plain_facet f = true -> exists n, group f = Some n.
Proof.
  destruct f as [m | [|m l]]; cbn [plain_facet group]; [| discriminate |].
  - intros (k & v & _ & _ & Hn)%plain_member_node. eauto.
  - intros (ns & Hns)%plain_members_nodes. rewrite Hns.
    apply all_some_cons in Hns as (n & ns' & _ & _ & ->). cbn. eauto.
Qed.

(** A group is one operand of the conjunction. *)
Lemma parse_unary_facet f fuel n rest :
  plain_facet f = true -> group f = Some n ->
  (length (facet_tokens f) <= fuel)%nat ->
  parse_unary fuel (facet_tokens f ++ rest) = ret (n, rest).
Proof.
  destruct f as [m | [|m l]]; cbn [plain_facet group facet_tokens];
    [| discriminate |].
  - intros Hm Hn Hfuel. apply parse_unary_member; try assumption.
    rewrite member_tokens_length in Hfuel by assumption. lia.
  - intros Hl Hn Hfuel.
    destruct (all_some (map match_of (m :: l))) as [ns|] eqn:Hns; [|discriminate].
    cbn [map] in Hns. apply all_some_cons in Hns as (n0 & ns' & Hn0 & Hns & ->).
    cbn [chain] in Hn. injection Hn as <-.
    cbn [forallb] in Hl. apply andb_true_iff in Hl as [Hm Hl].
    cbn [map sep_tokens] in *.
    rewrite <- !List.app_comm_cons in *. rewrite <- !List.app_assoc in *.
    cbn [length] in Hfuel.
    rewrite !length_app, member_tokens_length, tail_members_length in Hfuel
      by assumption.
    cbn [length] in Hfuel.
    destruct fuel as [|fuel]; [lia|]. rewrite parse_unary_paren.
    destruct fuel as [|fuel]; [lia|]. rewrite parse_or_S.
    rewrite (parse_and_member fuel m n0); try assumption; try lia.
    + cbn [bind ret fst snd].
      rewrite (or_loop_members l fuel n0 ns' ([TRParen] ++ rest));
        try assumption; try done; try lia.
    + apply stops_tail; done.
Qed.

Lemma facet_tokens_nonempty f :
  plain_facet f = true -> (3 <= length (facet_tokens f))%nat.
Proof.
  destruct f as [m | [|m l]]; cbn [plain_facet facet_tokens];
    [| discriminate |].
  - intros Hm. rewrite member_tokens_length by assumption. lia.
  - cbn [forallb map sep_tokens]. intros [Hm Hl]%andb_true_iff.
    cbn [length]. rewrite !length_app, member_tokens_length by assumption. lia.
Qed.

(** The groups after the first. *)
Lemma and_loop_facets ff : forall fuel acc ns,
  forallb plain_facet ff = true ->
  all_some (map group ff) = Some ns ->
  (length (tail_tokens TAnd (map facet_tokens ff)) + 1 <= fuel)%nat ->
  and_loop fuel acc (tail_tokens TAnd (map facet_tokens ff))
  = ret (fold_left And ns acc, []).
Proof.
  induction ff as [|f ff IH]; intros fuel acc ns Hff Hns Hfuel.
  - cbn in Hns. injection Hns as <-.
    apply and_loop_stops; [lia | done].
  - cbn [forallb] in Hff. apply andb_true_iff in Hff as [Hf Hff].
    cbn [map] in *. apply all_some_cons in Hns as (n & ns' & Hn & Hns & ->).
    pose proof (tail_tokens_cons TAnd (facet_tokens f) (map facet_tokens ff) []) as H.
    rewrite !List.app_nil_r in H. rewrite H in *. clear H.
    cbn [length] in Hfuel. rewrite length_app in Hfuel.
    destruct fuel as [|fuel]; [lia|]. rewrite and_loop_S.
    rewrite (parse_unary_facet f fuel n) by (assumption || lia).
    cbn [bind ret fst snd fold_left]. apply IH; try assumption. lia.
Qed.

(** The parser reads the text of plain facet filters as the normalizer
    of the specification builds their tree. *)
Lemma parse_facet_string ff :
  plain_facets ff = true ->
  exists n, normalize ff = Some n
            /\ parse (server.facet_string ff) = ret (rule_of n).
Proof.
  intros Hplain. unfold parse.
  rewrite tokenize_facet_string by assumption.
  destruct ff as [|f ff]; [discriminate|].
  cbn [plain_facets] in Hplain. cbn [forallb] in Hplain.
  apply andb_true_iff in Hplain as [Hf Hff].
  destruct (plain_facet_group f Hf) as [n Hn].
  assert (exists ns, all_some (map group ff) = Some ns) as [ns Hns].
  { clear -Hff. induction ff as [|g ff IH]; [by exists []|].
    cbn [forallb] in Hff. apply andb_true_iff in Hff as [Hg Hff].
    destruct (plain_facet_group g Hg) as [m Hm].
    destruct (IH Hff) as [ns Hns]. cbn. rewrite Hm, Hns. eauto. }
  exists (fold_left And ns n). split.
  { unfold normalize. cbn [map all_some]. by rewrite Hn, Hns. }
  unfold facets_tokens, fuel_for. cbn [map sep_tokens].
  set (tail := tail_tokens TAnd (map facet_tokens ff)).
  pose proof (facet_tokens_nonempty f Hf) as Hlen.
  rewrite length_app.
  replace (3 * (length (facet_tokens f) + length tail) + 3)%nat
    with (S (S (3 * (length (facet_tokens f) + length tail) + 1))) by lia.
  rewrite parse_or_S, parse_and_S.
  rewrite (parse_unary_facet f _ n) by (assumption || lia).
  cbn [bind ret fst snd]. subst tail.
  rewrite (and_loop_facets ff _ n ns) by (assumption || lia).
  cbn [bind ret fst snd].
  rewrite or_loop_stops by (lia || done). reflexivity.
Qed.
End ParserFacts.

(** * Facet filters *)
Section FacetFacts.
Context {E : Type} (db : Db E).
Import AST Spec server.

Lemma compile_positive n :
  positive n = true -> exists e, compile db n = ret e.
Proof.
  induction n as [key value | l IHl r IHr | l IHl r IHr | operand IH];
    cbn [positive compile]; [eauto | | | discriminate].
  - intros [Hl Hr]%andb_true_iff.
    destruct (IHl Hl) as [a ->], (IHr Hr) as [b ->]. eauto.
  - intros [Hl Hr]%andb_true_iff.
    destruct (IHl Hl) as [a ->], (IHr Hr) as [b ->]. eauto.
Qed.

Lemma match_of_positive m n : match_of m = Some n -> positive n = true.
Proof.
  unfold match_of. destruct (split_colon m) as [[k v]|]; [|discriminate].
  by intros [= <-].
Qed.

Lemma fold_positive (op : node -> node -> node) ns : forall n,
  (forall a b, positive a = true -> positive b = true -> positive (op a b) = true) ->
  positive n = true -> forallb positive ns = true ->
  positive (fold_left op ns n) = true.
Proof.
  induction ns as [|m ns IH]; intros n Hop Hn Hns; [exact Hn|].
  cbn [forallb] in Hns. apply andb_true_iff in Hns as [Hm Hns].
  cbn [fold_left]. apply IH; auto.
Qed.

Lemma chain_positive (op : node -> node -> node) ns n :
  (forall a b, positive a = true -> positive b = true -> positive (op a b) = true) ->
  chain op ns = Some n -> forallb positive ns = true -> positive n = true.
Proof.
  intros Hop. destruct ns as [|m ns]; [discriminate|]. cbn [chain forallb].
  intros [= <-] [Hm Hns]%andb_true_iff. by apply fold_positive.
Qed.

Lemma all_some_positive {A} (f : A -> option node) l ns :
  (forall a n, f a = Some n -> positive n = true) ->
  all_some (map f l) = Some ns -> forallb positive ns = true.
Proof.
  intros Hf. revert ns. induction l as [|a l IH]; intros ns.
  - by intros [= <-].
  - cbn [map]. intros (n & ns' & Hn & Hns & ->)%all_some_cons.
    cbn [forallb]. rewrite (Hf a n Hn), (IH ns' Hns). reflexivity.
Qed.

Lemma and_or_positive :
  (forall a b, positive a = true -> positive b = true -> positive (And a b) = true)
  /\ (forall a b, positive a = true -> positive b = true -> positive (Or a b) = true).
Proof. split; intros a b Ha Hb; cbn; by rewrite Ha, Hb. Qed.

Lemma group_positive f n : group f = Some n -> positive n = true.
Proof.
  destruct f as [m | l]; cbn [group]; [apply match_of_positive|].
  destruct (all_some (map match_of l)) as [ns|] eqn:Hns; [|discriminate].
  intros Hn. eapply chain_positive; [apply (proj2 and_or_positive) | exact Hn |].
  eapply all_some_positive; [apply match_of_positive | exact Hns].
Qed.

Lemma normalize_positive ff n : normalize ff = Some n -> positive n = true.
Proof.
  unfold normalize.
  destruct (all_some (map group ff)) as [ns|] eqn:Hns; [|discriminate].
  intros Hn. eapply chain_positive; [apply (proj1 and_or_positive) | exact Hn |].
  eapply all_some_positive; [apply group_positive | exact Hns].
Qed.

(** C4, as the code has it: on plain facet filters the text the route
    builds parses to the tree of the normalizer, a [Match] for a bare
    string, the [Or] of its members for a nested list, these combined
    with [And], and the facet clause is that tree compiled;
    [[["a:1","a:2"],"b:3"]] gives [AND(OR(a:1, a:2), b:3)]. *)
Theorem facet_filters_normalized :
  (forall ff,
      plain_facets ff = true ->
      exists n e,
        normalize ff = Some n
        /\ algoliaDSLParser.parse (facet_string ff) = ret (rule_of n)
        /\ compile db n = ret e
        /\ facet_clause db algoliaDSLParser.parse (Some ff) = ret [e])
  /\ facet_clause db algoliaDSLParser.parse
       (Some [FArr ["a:1"; "a:2"]; FStr "b:3"])
     = ret [AND db (OR db (term db "a:1") (term db "a:2")) (term db "b:3")].
Proof.
  split.
  - intros ff Hff.
    destruct (parse_facet_string ff Hff) as (n & Hn & Hp).
    destruct (compile_positive n (normalize_positive ff n Hn)) as [e He].
    exists n, e. repeat split; try assumption.
    unfold facet_clause, parseAlgoliaSQL.parseAlgoliaSQL.
    rewrite Hp. cbn [bind ret]. by rewrite build_compile, He.
  - reflexivity.
Qed.

Lemma fold_left_op (op : node -> node -> node) ns : forall n,
  ns <> [] -> exists l r, fold_left op ns n = op l r.
Proof.
  induction ns as [|m ns IH]; intros n Hne; [done|].
  destruct ns as [|m' ns']; [cbn; eauto|].
  change (fold_left op (m :: m' :: ns') n) with (fold_left op (m' :: ns') (op n m)).
  by apply IH.
Qed.

Lemma all_some_length {A} (l : list (option A)) r :
  all_some l = Some r -> length r = length l.
Proof.
  revert r. induction l as [|o l IH]; intros r.
  - by intros [= <-].
  - intros (a & r' & _ & Hr & ->)%all_some_cons. cbn [length].
    by rewrite (IH r').
Qed.

(** The tree of two elements or more is an [And], that of a nested list
    of two members or more an [Or]. *)
Lemma normalize_conjunction gg n :
  normalize gg = Some n -> (2 <= length gg)%nat -> exists l r, n = And l r.
Proof.
  unfold normalize.
  destruct (all_some (map group gg)) as [gs|] eqn:Hgs; [|discriminate].
  apply all_some_length in Hgs. rewrite length_map in Hgs.
  destruct gs as [|g [|g' gs']]; cbn [chain length] in *;
    [discriminate | intros _ ?; lia |].
  intros [= <-] _. by apply (fold_left_op And (g' :: gs') g).
Qed.

Lemma normalize_disjunction l n :
  normalize [FArr l] = Some n -> (2 <= length l)%nat -> exists a b, n = Or a b.
Proof.
  unfold normalize. cbn [map group].
  destruct (all_some (map match_of l)) as [ms|] eqn:Hms; [|discriminate].
  apply all_some_length in Hms. rewrite length_map in Hms.
  destruct ms as [|m [|m' ms']]; cbn [chain length all_some fold_left] in *;
    [discriminate | intros _ ?; lia |].
  intros [= <-] _. by apply (fold_left_op Or (m' :: ms') m).
Qed.

(** C10: the facet clause is made of one text: a bare string as it is, a
    nested list as its members joined with [" OR "] between parentheses,
    the elements joined with [" AND "], nothing quoted or escaped; the
    text is parsed and compiled as the text of [filters] is.  So with the
    grammar a list is read as any list of key:value members that has the
    same text: a bare string that spells two elements or more is an
    [And], one that spells a nested list is an [Or], neither is one
    match; [a:1 AND b:2] is [AND(a:1, b:2)], an [OR] or a [NOT] inside a
    member takes operands from its neighbours, and a parenthesis inside a
    member makes the text one the grammar refuses. *)
Theorem facet_filters_are_reparsed :
  (forall s, piece (FStr s) = s)
  /\ (forall l, piece (FArr l) = "(" +:+ join " OR " l +:+ ")")
  /\ (forall sep,
       join sep [] = ""
       /\ (forall a, join sep [a] = a)
       /\ (forall a b l,
            join sep (a :: b :: l) = a +:+ sep +:+ join sep (b :: l)))
  /\ (forall ff, facet_string ff = join " AND " (map piece ff))
  /\ (forall parse ff,
       facet_clause db parse (Some ff)
       = (let* ast := parse (facet_string ff) in
          let* e := parseAlgoliaSQL.buildSearchExpression db ast in
          ret [e]))
  /\ (forall parse ff,
       facet_string ff <> "" ->
       facet_clause db parse (Some ff)
       = filter_clause db parse (Some (facet_string ff)))
  /\ (forall ff gg,
       plain_facets gg = true -> facet_string ff = facet_string gg ->
       exists n e,
         normalize gg = Some n
         /\ algoliaDSLParser.parse (facet_string ff) = ret (rule_of n)
         /\ compile db n = ret e
         /\ facet_clause db algoliaDSLParser.parse (Some ff) = ret [e]
         /\ ((2 <= length gg)%nat -> exists l r, n = And l r)
         /\ (forall l, gg = [FArr l] -> (2 <= length l)%nat ->
             exists a b, n = Or a b))
  /\ facet_clause db algoliaDSLParser.parse (Some [FStr "a:1 AND b:2"])
     = ret [AND db (term db "a:1") (term db "b:2")]
  /\ facet_clause (index_of []) algoliaDSLParser.parse (Some [FStr "a:1 AND b:2"])
     <> ret [Leaf "a:1 AND b:2"]
  /\ facet_clause db algoliaDSLParser.parse (Some [FStr "(a:1 OR a:2)"; FStr "b:3"])
     = ret [AND db (OR db (term db "a:1") (term db "a:2")) (term db "b:3")]
  /\ facet_clause db algoliaDSLParser.parse (Some [FStr "a:1 OR b:2"; FStr "c:3"])
     = ret [OR db (term db "a:1") (AND db (term db "b:2") (term db "c:3"))]
  /\ facet_clause db algoliaDSLParser.parse (Some [FStr "a:1"; FStr "NOT b:2 OR c:3"])
     = ret [OR db (AND db (term db "a:1") (NOT db (term db "*") (term db "b:2")))
                  (term db "c:3")]
  /\ facet_clause db algoliaDSLParser.parse (Some [FStr "a:1)"; FStr "b:2"])
     = throw (SyntaxError ")").
Proof.
  do 2 (split; [reflexivity|]).
  split; [intros sep; repeat split; reflexivity|].
  split; [reflexivity|].
  split.
  { intros parse ff. unfold facet_clause, parseAlgoliaSQL.parseAlgoliaSQL.
    by destruct (parse (facet_string ff)). }
  split.
  { intros parse ff Hne. cbn [facet_clause filter_clause].
    destruct (falsy (JStr (facet_string ff))) eqn:F; [|reflexivity].
    cbn in F. destruct (decide (facet_string ff = "")); [contradiction|discriminate]. }
  split.
  { intros ff gg Hgg Heq.
    destruct (parse_facet_string gg Hgg) as (n & Hn & Hp).
    destruct (compile_positive n (normalize_positive gg n Hn)) as [e He].
    exists n, e. rewrite Heq. split; [exact Hn|]. split; [exact Hp|].
    split; [exact He|]. split; [|split].
    - unfold facet_clause, parseAlgoliaSQL.parseAlgoliaSQL.
      rewrite Heq, Hp. cbn [bind ret]. by rewrite build_compile, He.
    - by apply normalize_conjunction.
    - intros l -> Hl. by apply (normalize_disjunction l). }
  split; [reflexivity|]. split; [discriminate|].
  repeat split; reflexivity.
Qed.
End FacetFacts.

(** C4, as stated: the bare string [a:1 OR b:2] is not one [Match], and
    the two elements are not combined with [And]: the text is
    [a:1 OR b:2 AND c:3], which the grammar reads as [OR(a:1, AND(b:2, c:3))]. *)
Lemma facet_string_not_normalized :
  let ff := [FStr "a:1 OR b:2"; FStr "c:3"] in
  Spec.normalize ff
  = Some (AST.And (AST.Match "a" (JStr "1 OR b:2")) (AST.Match "c" (JNum 3)))
  /\ server.facet_string ff = "a:1 OR b:2 AND c:3"
  /\ server.facet_clause (index_of []) algoliaDSLParser.parse (Some ff)
     = ret [TOR (Leaf "a:1") (TAND (Leaf "b:2") (Leaf "c:3"))]
  /\ server.facet_clause (index_of []) algoliaDSLParser.parse (Some ff)
     <> (let* e := Spec.compile (index_of [])
                     (AST.And (AST.Match "a" (JStr "1 OR b:2"))
                              (AST.Match "c" (JNum 3))) in
         ret [e]).
Proof. vm_compute. repeat split. discriminate. Qed.

(** * The sort comparator *)
Section ComparatorFacts.
Import server.

(** The comparator never answers 0. *)
Lemma comparator_never_zero sortAttribute sortDesc item1 item2 :
  comparator sortAttribute sortDesc item1 item2 <> 0%Z.
Proof.
  unfold comparator.
  destruct sortDesc; [destruct (js_ge _ _) | destruct (js_le _ _)]; discriminate.
Qed.

(** Two records with the same number or the same string are each put
    after the other. *)
Lemma comparator_equal_values sortAttribute sortDesc item1 item2 v :
  (exists n, v = JNum n) \/ (exists s, v = JStr s) ->
  item1 !! sortAttribute = Some v -> item2 !! sortAttribute = Some v ->
  comparator sortAttribute sortDesc item1 item2 = 1%Z
  /\ comparator sortAttribute sortDesc item2 item1 = 1%Z.
Proof.
  intros Hv H1 H2. unfold comparator. rewrite H1, H2. cbn [from_option id].
  assert (js_le v v = true /\ js_ge v v = true) as [Hle Hge].
  { destruct Hv as [[n ->] | [s ->]].
    - cbn. split; [apply Z.leb_refl | apply Z.geb_le; lia].
    - change (js_le (JStr s) (JStr s)) with (String.leb s s).
      change (js_ge (JStr s) (JStr s)) with (String.leb s s).
      destruct (String.leb_total s s) as [H | H]; by rewrite H. }
  destruct sortDesc; by rewrite ?Hle, ?Hge.
Qed.

(** Two records without the attribute are each put before the other. *)
Lemma comparator_missing sortAttribute sortDesc item1 item2 :
  item1 !! sortAttribute = None -> item2 !! sortAttribute = None ->
  comparator sortAttribute sortDesc item1 item2 = (-1)%Z
  /\ comparator sortAttribute sortDesc item2 item1 = (-1)%Z.
Proof.
  intros H1 H2. unfold comparator. rewrite H1, H2. by destruct sortDesc.
Qed.
(** Whichever of the two ways the runtime orders a pair, the route
    exchanges some two records that tie. *)
Lemma ties_exchanged_forward sort sortAttribute sortDesc item1 item2 v :
  orders_pair_forward sort ->
  sortAttribute <> "" ->
  (exists n, v = JNum n) \/ (exists s, v = JStr s) ->
  item1 !! sortAttribute = Some v -> item2 !! sortAttribute = Some v ->
  sort_hits sort (Some sortAttribute) sortDesc [item1; item2] = [item2; item1].
Proof.
  intros Hsort Ha Hv H1 H2. unfold sort_hits.
  destruct (falsy (JStr sortAttribute)) eqn:F; [by apply falsy_JStr in F|].
  rewrite Hsort.
  by destruct (comparator_equal_values sortAttribute sortDesc item1 item2 v Hv H1 H2)
    as [-> _].
Qed.

Lemma ties_exchanged_backward sort sortAttribute sortDesc item1 item2 :
  orders_pair_backward sort ->
  sortAttribute <> "" ->
  item1 !! sortAttribute = None -> item2 !! sortAttribute = None ->
  sort_hits sort (Some sortAttribute) sortDesc [item1; item2] = [item2; item1].
Proof.
  intros Hsort Ha H1 H2. unfold sort_hits.
  destruct (falsy (JStr sortAttribute)) eqn:F; [by apply falsy_JStr in F|].
  rewrite Hsort.
  by destruct (comparator_missing sortAttribute sortDesc item1 item2 H1 H2)
    as [_ ->].
Qed.
End ComparatorFacts.

(** * Instances *)

(** The negation of a conjunction does not compile. *)
Lemma buildSearchExpression_failures_witness :
  let operand := AST.rule_of (AST.And (AST.Match "a" (JNum 1)) (AST.Match "b" (JNum 2))) in
  Rule operand
  /\ (forall key value, operand <> AST.rule_of (AST.Match key value))
  /\ parseAlgoliaSQL.buildSearchExpression (index_of [])
       (JObj (JStr "NOT") JUndefined operand JUndefined JUndefined)
     = throw (Error "NOT only supports MATCH").
Proof.
  intros operand.
  assert (HR : Rule operand) by (apply Rule_And; apply Rule_Match).
  assert (Hne : forall key value, operand <> AST.rule_of (AST.Match key value))
    by (intros key value; discriminate).
  split; [exact HR|]. split; [exact Hne|].
  exact (proj1 (buildSearchExpression_failures (index_of [])) operand HR Hne).
Defined.

(** A query for [shoes] is searched as [shoes]. *)
Lemma text_clause_cases_witness :
  let req := request (Some "shoes") None None None None in
  Request.query req = Some "shoes"
  /\ "shoes" <> ""
  /\ server.search_expressions (index_of []) algoliaDSLParser.parse req
     = (let* rest := server.search_expressions (index_of []) algoliaDSLParser.parse
                       (with_query None req) in
        ret (term (index_of []) "shoes" :: rest)).
Proof.
  intros req. split; [reflexivity|]. split; [discriminate|].
  apply (proj1 (text_clause_cases (index_of []) algoliaDSLParser.parse req));
    [reflexivity | discriminate].
Defined.

(** The property [k] of a record is the property [k] of its hit. *)
Lemma to_hit_renames_id_witness :
  let it := {| obj := {[ "_id" := JNum 7; "k" := JStr "x" ]} |} in
  "k" <> "objectID" /\ "k" <> "_id"
  /\ server.to_hit it !! "k" = obj it !! "k".
Proof.
  intros it. split; [discriminate|]. split; [discriminate|].
  apply (proj2 (proj2 (to_hit_renames_id it))); discriminate.
Defined.


(** A filter that negates a conjunction is answered with status 400. *)
Lemma filter_failure_response_witness :
  let req := request None (Some "NOT (a:1 AND b:2)") None None None in
  Request.filters req = Some "NOT (a:1 AND b:2)"
  /\ "NOT (a:1 AND b:2)" <> ""
  /\ parseAlgoliaSQL.parseAlgoliaSQL (index_of []) algoliaDSLParser.parse
       "NOT (a:1 AND b:2)" = inl (Error "NOT only supports MATCH")
  /\ server.query_route (index_of []) algoliaDSLParser.parse no_sort req
     = inl (Error "NOT only supports MATCH")
  /\ server.query_endpoint (index_of []) algoliaDSLParser.parse no_sort req
     = {| status := 400; json := MessageBody "Internal server error" 500 |}.
Proof.
  intros req.
  pose proof (filter_failure_response (index_of []) algoliaDSLParser.parse no_sort
                req (Error "NOT only supports MATCH")) as (H1 & _ & H3).
  assert (Hf : Request.filters req = Some "NOT (a:1 AND b:2)") by reflexivity.
  assert (Hne : "NOT (a:1 AND b:2)" <> "") by discriminate.
  assert (He : parseAlgoliaSQL.parseAlgoliaSQL (index_of []) algoliaDSLParser.parse
                 "NOT (a:1 AND b:2)" = inl (Error "NOT only supports MATCH"))
    by (vm_compute; reflexivity).
  split; [exact Hf|]. split; [exact Hne|]. split; [exact He|].
  split; [exact (H1 _ Hf Hne He) | exact (H3 (H1 _ Hf Hne He))].
Defined.

(** The facet filters [[["a:1","a:2"],"b:3"]] are plain. *)
Lemma facet_filters_normalized_witness :
  let ff := [FArr ["a:1"; "a:2"]; FStr "b:3"] in
  Spec.plain_facets ff = true
  /\ exists n e,
       Spec.normalize ff = Some n
       /\ algoliaDSLParser.parse (server.facet_string ff) = ret (AST.rule_of n)
       /\ Spec.compile (index_of []) n = ret e
       /\ server.facet_clause (index_of []) algoliaDSLParser.parse (Some ff) = ret [e].
Proof.
  intros ff. split; [reflexivity|].
  apply (proj1 (facet_filters_normalized (index_of []))). reflexivity.
Defined.

(** The bare string [a:1 AND b:2] has the text of the two elements
    [a:1] and [b:2], and is read as their conjunction. *)
Lemma facet_filters_are_reparsed_witness :
  let ff := [FStr "a:1 AND b:2"] in
  let gg := [FStr "a:1"; FStr "b:2"] in
  Spec.plain_facets gg = true
  /\ server.facet_string ff = server.facet_string gg
  /\ exists n e,
       Spec.normalize gg = Some n
       /\ algoliaDSLParser.parse (server.facet_string ff) = ret (AST.rule_of n)
       /\ Spec.compile (index_of []) n = ret e
       /\ server.facet_clause (index_of []) algoliaDSLParser.parse (Some ff) = ret [e]
       /\ ((2 <= length gg)%nat -> exists l r, n = AST.And l r)
       /\ (forall l, gg = [FArr l] -> (2 <= length l)%nat ->
           exists a b, n = AST.Or a b).
Proof.
  intros ff gg. split; [reflexivity|]. split; [reflexivity|].
  apply (proj1 (proj2 (proj2 (proj2 (proj2 (proj2 (proj2
           (facet_filters_are_reparsed (index_of [])))))))) ff gg);
    reflexivity.
Defined.

(** * Further properties of the query route *)
Section PageFacts.
Import server.

(** X1: the hit at place [j] of a page is the hit at place
    [page * hitsPerPage + j] of the sorted hits when [j < hitsPerPage - 1],
    and there is none from place [hitsPerPage - 1] on. *)
Theorem page_lookup (hits : list record) (page hitsPerPage : Z) (j : nat) :
  (0 <= page)%Z -> (0 < hitsPerPage)%Z ->
  paginate hits page hitsPerPage !! j
  = if (Z.of_nat j <? hitsPerPage - 1)%Z
    then hits !! (Z.to_nat (page * hitsPerPage) + j)%nat
    else None.
Proof.
  intros Hp Hh. rewrite paginate_window by assumption.
  destruct (Z.ltb_spec (Z.of_nat j) (hitsPerPage - 1)) as [Hlt | Hge].
  - rewrite lookup_take_lt by lia. apply lookup_drop.
  - apply lookup_take_ge. lia.
Qed.

(** X2: when the hits are distinct, the hit at a place [i] with
    [i + 1] a multiple of [hitsPerPage] is on no page. *)
Theorem last_of_window_on_no_page (hits : list record) (hitsPerPage : Z)
    (i : nat) (h : record) :
  (0 < hitsPerPage)%Z -> NoDup hits -> hits !! i = Some h ->
  ((Z.of_nat i + 1) mod hitsPerPage = 0)%Z ->
  forall page, (0 <= page)%Z -> h ∉ paginate hits page hitsPerPage.
Proof.
  intros Hh Hnd Hi Hmod page Hp [j Hj]%list_elem_of_lookup_1.
  rewrite paginate_window in Hj by assumption.
  apply lookup_take_Some in Hj as [Hj Hlt].
  rewrite lookup_drop in Hj.
  pose proof (NoDup_lookup _ _ _ _ Hnd Hi Hj) as ->.
  assert (Heq : (Z.of_nat (Z.to_nat (page * hitsPerPage) + j) + 1
                 = (Z.of_nat j + 1) + page * hitsPerPage)%Z) by nia.
  rewrite Heq, Z_mod_plus_full, Z.mod_small in Hmod by lia. lia.
Qed.
End PageFacts.

Section AnsweredPage.
Context {E : Type} (db : Db E).
Variable parse : string -> result jsval.
Variable sort : (record -> record -> Z) -> list record -> list record.
Import server.

End AnsweredPage.

Section ComparatorCases.
Import server.

Lemma comparator_numbers sortAttribute item1 item2 m n :
  item1 !! sortAttribute = Some (JNum m) ->
  item2 !! sortAttribute = Some (JNum n) ->
  comparator sortAttribute false item1 item2 = (if (n <=? m)%Z then 1 else -1)%Z
  /\ comparator sortAttribute true item1 item2 = (if (n >=? m)%Z then 1 else -1)%Z.
Proof.
  intros H1 H2. unfold comparator. rewrite H1, H2. split; reflexivity.
Qed.

Lemma js_le_undefined v : js_le JUndefined v = false /\ js_le v JUndefined = false.
Proof.
  split; [by destruct v|].
  destruct v as [|b|n|s|t k v l r]; cbn; try reflexivity.
  destruct (decide (s = "")); [reflexivity|].
  by destruct (option_map Z.of_int (NilZero.int_of_string s)).
Qed.

Lemma js_ge_undefined v : js_ge JUndefined v = false /\ js_ge v JUndefined = false.
Proof.
  split; [by destruct v|].
  destruct v as [|b|n|s|t k v l r]; cbn; try reflexivity.
  destruct (decide (s = "")); [reflexivity|].
  by destruct (option_map Z.of_int (NilZero.int_of_string s)).
Qed.

(** X3: the comparator answers 1 or -1, never 0.  On two records with
    different numbers it puts the smaller first ascending and the larger
    first descending; two records with the same number or string are each
    put after the other; a record without the attribute is put before
    every record, and every record before it. *)
Theorem comparator_cases sortAttribute sortDesc (item1 item2 : record) :
  (comparator sortAttribute sortDesc item1 item2 = 1%Z
   \/ comparator sortAttribute sortDesc item1 item2 = (-1)%Z)
  /\ (forall m n,
       item1 !! sortAttribute = Some (JNum m) ->
       item2 !! sortAttribute = Some (JNum n) ->
       (m < n)%Z ->
       comparator sortAttribute false item1 item2 = (-1)%Z
       /\ comparator sortAttribute false item2 item1 = 1%Z
       /\ comparator sortAttribute true item1 item2 = 1%Z
       /\ comparator sortAttribute true item2 item1 = (-1)%Z)
  /\ (forall v,
       (exists n, v = JNum n) \/ (exists s, v = JStr s) ->
       item1 !! sortAttribute = Some v -> item2 !! sortAttribute = Some v ->
       comparator sortAttribute sortDesc item1 item2 = 1%Z
       /\ comparator sortAttribute sortDesc item2 item1 = 1%Z)
  /\ (item1 !! sortAttribute = None ->
       comparator sortAttribute sortDesc item1 item2 = (-1)%Z
       /\ comparator sortAttribute sortDesc item2 item1 = (-1)%Z).
Proof.
  split; [|split; [|split]].
  - unfold comparator.
    destruct sortDesc; [destruct (js_ge _ _) | destruct (js_le _ _)]; auto.
  - intros m n H1 H2 Hlt.
    destruct (comparator_numbers sortAttribute item1 item2 m n H1 H2) as [-> ->].
    destruct (comparator_numbers sortAttribute item2 item1 n m H2 H1) as [-> ->].
    destruct (Z.leb_spec n m), (Z.leb_spec m n); try lia.
    all: destruct (Z.geb_spec n m), (Z.geb_spec m n); try lia.
    all: done.
  - intros v Hv H1 H2.
    exact (comparator_equal_values sortAttribute sortDesc item1 item2 v Hv H1 H2).
  - intros H1. unfold comparator. rewrite H1. cbn [from_option].
    destruct (js_le_undefined (default JUndefined (item2 !! sortAttribute))) as [-> ->].
    destruct (js_ge_undefined (default JUndefined (item2 !! sortAttribute))) as [-> ->].
    by destruct sortDesc.
Qed.
End ComparatorCases.

Section CompilerEdges.
Context {E : Type} (db : Db E).
Import parseAlgoliaSQL.

Lemma build_throws rule e :
  buildSearchExpression db rule = inl e ->
  e = Error "NOT only supports MATCH" \/ e = Error "UNKNOWN TOKEN"
  \/ exists m, e = TypeError m.
Proof.
  revert e.
  induction rule as [| b | n | s | token IHt key IHk value IHv l IHl r IHr];
    intros e; cbn [buildSearchExpression].
  - intros [= <-]. right. right. eauto.
  - intros [= <-]. auto.
  - intros [= <-]. auto.
  - intros [= <-]. auto.
  - destruct (strict_eq_str token "MATCH").
    { destruct value; cbn; try discriminate. intros [= <-]. right. right. eauto. }
    destruct (strict_eq_str token "OR").
    { destruct (buildSearchExpression db l) as [e1|a]; cbn; [intros [= <-]; auto|].
      destruct (buildSearchExpression db r) as [e2|b]; cbn; [intros [= <-]; auto|].
      discriminate. }
    destruct (strict_eq_str token "AND").
    { destruct (buildSearchExpression db l) as [e1|a]; cbn; [intros [= <-]; auto|].
      destruct (buildSearchExpression db r) as [e2|b]; cbn; [intros [= <-]; auto|].
      discriminate. }
    destruct (strict_eq_str token "NOT"); [|intros [= <-]; auto].
    destruct (get_token value) as [e1|t] eqn:Ht; cbn.
    { intros [= <-]. destruct value; try discriminate.
      cbn in Ht. injection Ht as <-. right. right. eauto. }
    destruct (strict_eq_str t "MATCH"); [|intros [= <-]; auto].
    destruct (buildSearchExpression db value) as [e2|b]; cbn; [|discriminate].
    intros [= <-]. auto.
Qed.

(** X4: the operands of an [AND] and of an [OR] are compiled from left to
    right: an error of the left one is the error of the node whatever the
    right one is, and an error of the right one is the error of the node
    when the left one compiles. *)
Theorem operands_compiled_left_to_right op key value l r e :
  op = "AND" \/ op = "OR" ->
  (buildSearchExpression db l = inl e ->
   buildSearchExpression db (JObj (JStr op) key value l r) = inl e)
  /\ (forall a,
       buildSearchExpression db l = inr a ->
       buildSearchExpression db r = inl e ->
       buildSearchExpression db (JObj (JStr op) key value l r) = inl e).
Proof.
  intros [-> | ->]; split.
  - intros H. cbn. by rewrite H.
  - intros a Ha Hr. cbn. by rewrite Ha, Hr.
  - intros H. cbn. by rewrite H.
  - intros a Ha Hr. cbn. by rewrite Ha, Hr.
Qed.

(** X5: whatever rule it is given, the compiler throws nothing but the
    two errors of its own and a [TypeError]; it throws a [TypeError] on a
    rule that is [undefined] and on a [MATCH] or a [NOT] without [value];
    a [MATCH] whose [value] is a string, not an object, compiles to
    [key:undefined]. *)
Theorem buildSearchExpression_malformed :
  (forall rule e,
      buildSearchExpression db rule = inl e ->
      e = Error "NOT only supports MATCH" \/ e = Error "UNKNOWN TOKEN"
      \/ exists m, e = TypeError m)
  /\ (exists m, buildSearchExpression db JUndefined = inl (TypeError m))
  /\ (forall key l r,
      exists m, buildSearchExpression db (JObj (JStr "MATCH") key JUndefined l r)
                = inl (TypeError m))
  /\ (forall key l r,
      exists m, buildSearchExpression db (JObj (JStr "NOT") key JUndefined l r)
                = inl (TypeError m))
  /\ (forall key s l r,
      buildSearchExpression db (JObj (JStr "MATCH") (JStr key) (JStr s) l r)
      = ret (term db (key +:+ ":undefined"))).
Proof.
  split; [exact build_throws|].
  repeat split; intros; try (eexists; reflexivity); reflexivity.
Qed.
End CompilerEdges.

(** * The routes that write *)
Section RoutesFacts.
Context {E σ : Type}.
Variable db : Db E.
Variable getIndex : io σ unit.
Variable PUT : list record -> io σ unit.
Variable DELETE : list jsval -> io σ unit.
Variable SEARCH_ : list E -> io σ (list item).
Variable INDEX_GET : string -> io σ (list record).
Variable INDEX_DELETE : list jsval -> io σ unit.
Variable existIndex : σ -> bool.
Variable notFound : exn -> bool.
Variable item_id : item -> jsval.
Variable parse : string -> result jsval.
Variable now : string.
Variable v4 : string.
Import routes.
Local Open Scope list_scope.

Lemma io_bind_ok {A B} (m : io σ A) (k : A -> io σ B) s a s1 :
  m s = (inr a, s1) -> io_bind m k s = k a s1.
Proof. intros H. unfold io_bind. by rewrite H. Qed.

Lemma io_bind_throw {A B} (m : io σ A) (k : A -> io σ B) s e s1 :
  m s = (inl e, s1) -> io_bind m k s = (inl e, s1).
Proof. intros H. unfold io_bind. by rewrite H. Qed.

Lemma io_bind_inr {A B} (m : io σ A) (k : A -> io σ B) s b s' :
  io_bind m k s = (inr b, s') ->
  exists a s1, m s = (inr a, s1) /\ k a s1 = (inr b, s').
Proof.
  unfold io_bind. destruct (m s) as [[e|a] s1]; [discriminate|]. eauto.
Qed.

Lemma update_not_delete r : is_update r = true -> is_delete r = false.
Proof.
  unfold is_update, is_delete. destruct (action r) as [| | |a|]; cbn; try done.
  destruct (decide (a = "updateObject")) as [->|]; [|done]. by intros _.
Qed.

Lemma updateObject_lookup (body : record) :
  updateObject body !! "_id" = Some (prop body "objectID")
  /\ updateObject body !! "objectID" = None
  /\ (forall k, k <> "_id" -> k <> "objectID" -> updateObject body !! k = body !! k).
Proof.
  unfold updateObject. split; [|split].
  - rewrite lookup_delete_ne by discriminate. apply lookup_insert_eq.
  - apply lookup_delete_eq.
  - intros k H1 H2. rewrite lookup_delete_ne by congruence.
    apply lookup_insert_ne. congruence.
Qed.

Lemma batch_loop_unsupported requests : forall puts deletes,
  forallb supported requests = false -> batch_loop requests puts deletes = None.
Proof.
  induction requests as [|r requests IH]; intros puts deletes; [discriminate|].
  cbn [forallb batch_loop]. unfold supported at 1, is_update, is_delete.
  destruct (strict_eq_str (action r) "updateObject").
  { cbn. intros H. by rewrite IH. }
  destruct (strict_eq_str (action r) "deleteObject"); [|done].
  cbn. intros H. by rewrite IH.
Qed.

Lemma batch_loop_supported requests : forall puts deletes,
  forallb supported requests = true ->
  exists requests',
    batch_loop requests puts deletes
    = Some (requests', puts ++ puts_of requests, deletes ++ deletes_of requests)
    /\ map (fun r => prop (body_of r) "objectID") requests' = answered_ids requests.
Proof.
  induction requests as [|r requests IH]; intros puts deletes.
  - intros _. exists []. cbn. by rewrite !List.app_nil_r.
  - cbn [forallb]. intros [Hr Hrs]%andb_true_iff.
    unfold puts_of, deletes_of, answered_ids. cbn [batch_loop List.filter map].
    destruct (is_update r) eqn:Hu.
    + rewrite (update_not_delete r Hu). unfold is_update in Hu. rewrite Hu.
      destruct (IH (puts ++ [updateObject (body_of r)]) deletes Hrs)
        as (rs & -> & Hids).
      eexists. split.
      * cbn [map]. by rewrite <- List.app_assoc.
      * cbn [map body_of]. rewrite Hids. unfold prop at 1.
        by rewrite (proj1 (proj2 (updateObject_lookup (body_of r)))).
    + unfold supported in Hr. rewrite Hu in Hr. cbn in Hr. rewrite Hr.
      unfold is_update in Hu. unfold is_delete in Hr. rewrite Hu, Hr.
      destruct (IH puts (deletes ++ [prop (body_of r) "objectID"]) Hrs)
        as (rs & -> & Hids).
      eexists. split.
      * cbn [map]. by rewrite <- List.app_assoc.
      * cbn [map]. by rewrite Hids.
Qed.

Lemma batch_calls_of (requests : list batch_request) :
  forallb supported requests = true ->
  batch getIndex PUT DELETE notFound requests
  = batch_calls getIndex PUT DELETE notFound
      (puts_of requests) (deletes_of requests) (answered_ids requests).
Proof.
  intros Hs. unfold batch.
  destruct (batch_loop_supported requests [] [] Hs) as (rs & -> & ->).
  reflexivity.
Qed.

(** X7: when some request of a batch has an action other than
    [updateObject] and [deleteObject], the route answers 400 with no body
    and leaves the store as it was, whatever the other requests are. *)
Theorem batch_unsupported_action (requests : list batch_request) (s : σ) :
  forallb supported requests = false ->
  wrapAsyncMiddleware_io (batch getIndex PUT DELETE notFound requests) s
  = ({| code := 400; sent := Ended |}, s).
Proof.
  intros H. unfold wrapAsyncMiddleware_io, batch.
  by rewrite batch_loop_unsupported.
Qed.

(** X8: in the answer of a batch the identifier of an [updateObject]
    request is [undefined], its [objectID] having been deleted from the
    body that is read again; that of a [deleteObject] request is the
    [objectID] of its body. *)
Theorem batch_answers_ids (requests : list batch_request) (s s' : σ)
    (res : reply) taskID objectIDs :
  batch getIndex PUT DELETE notFound requests s = (inr res, s') ->
  sent res = Batched taskID objectIDs ->
  objectIDs = answered_ids requests.
Proof.
  unfold batch. destruct (forallb supported requests) eqn:Hs.
  - destruct (batch_loop_supported requests [] [] Hs) as (rs & -> & Hids).
    unfold batch_calls. intros H.
    apply io_bind_inr in H as (? & s1 & _ & H).
    apply io_bind_inr in H as (? & s2 & _ & H).
    apply io_bind_inr in H as (? & s3 & _ & H).
    injection H as <- _. cbn. intros [= _ <-]. exact Hids.
  - rewrite batch_loop_unsupported by assumption.
    intros [= <- _]. discriminate.
Qed.

(** X9: when every action is supported, the batch opens the index, then
    calls [PUT] once with the bodies of the [updateObject] requests in
    their order, then [DELETE] once with the [objectID]s of the
    [deleteObject] requests in their order, a call with no element not
    being made, and answers 201 in the state the last call leaves.  When
    opening the index throws nothing is put or deleted, and when [PUT]
    throws nothing is deleted.  Each body that is put has its former
    [objectID] as [_id], has no [objectID], and has its other properties
    as they were. *)
Theorem batch_puts_then_deletes (requests : list batch_request) (s : σ) :
  forallb supported requests = true ->
  (forall e s1,
      getIndex s = (inl e, s1) ->
      batch getIndex PUT DELETE notFound requests s = (inl e, s1))
  /\ (forall e s1 s2,
       getIndex s = (inr tt, s1) ->
       puts_of requests <> [] ->
       PUT (puts_of requests) s1 = (inl e, s2) ->
       batch getIndex PUT DELETE notFound requests s = (inl e, s2))
  /\ (forall s1 s2 s3,
       getIndex s = (inr tt, s1) ->
       match puts_of requests with
       | [] => s2 = s1
       | puts => PUT puts s1 = (inr tt, s2)
       end ->
       match deletes_of requests with
       | [] => s3 = s2
       | deletes => DELETE deletes s2 = (inr tt, s3)
       end ->
       batch getIndex PUT DELETE notFound requests s
       = (inr {| code := 201;
                 sent := Batched "algolite-task-id" (answered_ids requests) |},
          s3))
  /\ (forall r, r ∈ requests -> is_update r = true ->
      updateObject (body_of r) ∈ puts_of requests
      /\ updateObject (body_of r) !! "_id" = Some (prop (body_of r) "objectID")
      /\ updateObject (body_of r) !! "objectID" = None
      /\ (forall k, k <> "_id" -> k <> "objectID" ->
          updateObject (body_of r) !! k = body_of r !! k)).
Proof.
  intros Hs. rewrite batch_calls_of by assumption. unfold batch_calls.
  split; [|split; [|split]].
  - intros e s1 Hg. by rewrite (io_bind_throw _ _ s e s1 Hg).
  - intros e s1 s2 Hg Hne Hp. rewrite (io_bind_ok _ _ s tt s1 Hg).
    destruct (puts_of requests) as [|p ps]; [done|].
    by rewrite (io_bind_throw _ _ s1 e s2 Hp).
  - intros s1 s2 s3 Hg Hp Hd. rewrite (io_bind_ok _ _ s tt s1 Hg).
    assert (Hputs : (match puts_of requests with
                     | [] => io_ret tt
                     | _ => PUT (puts_of requests)
                     end) s1 = (inr tt, s2)).
    { destruct (puts_of requests); [by subst | exact Hp]. }
    rewrite (io_bind_ok _ _ s1 tt s2 Hputs).
    destruct (deletes_of requests) as [|d ds].
    + subst s3. reflexivity.
    + unfold io_bind, io_catch. by rewrite Hd.
  - intros r Hr Hu. split; [|apply updateObject_lookup].
    unfold puts_of. apply list_elem_of_In, in_map_iff. exists r. split; [done|].
    apply filter_In. split; [by apply list_elem_of_In | exact Hu].
Qed.

(** X10: when [DELETE] throws in a batch whose earlier calls went
    through, an error with [notFound] is dropped and the answer is the
    201 of a batch that went through; any other error is answered as an
    internal server error with status 400. *)
Theorem batch_delete_error (requests : list batch_request)
    (s s1 s2 s3 : σ) (e : exn) :
  forallb supported requests = true ->
  getIndex s = (inr tt, s1) ->
  match puts_of requests with
  | [] => s2 = s1
  | puts => PUT puts s1 = (inr tt, s2)
  end ->
  deletes_of requests <> [] ->
  DELETE (deletes_of requests) s2 = (inl e, s3) ->
  wrapAsyncMiddleware_io (batch getIndex PUT DELETE notFound requests) s
  = (if notFound e
     then {| code := 201;
             sent := Batched "algolite-task-id" (answered_ids requests) |}
     else {| code := 400; sent := Message "Internal server error" 500 |},
     s3).
Proof.
  intros Hs Hg Hp Hne Hd. rewrite batch_calls_of by assumption.
  unfold wrapAsyncMiddleware_io, batch_calls.
  rewrite (io_bind_ok _ _ s tt s1 Hg).
  assert (Hputs : (match puts_of requests with
                   | [] => io_ret tt
                   | _ => PUT (puts_of requests)
                   end) s1 = (inr tt, s2)).
  { destruct (puts_of requests); [by subst | exact Hp]. }
  rewrite (io_bind_ok _ _ s1 tt s2 Hputs).
  destruct (deletes_of requests) as [|d ds] eqn:Hds; [done|].
  unfold io_bind, io_catch. rewrite Hd.
  by destruct (notFound e).
Qed.

(** X11: on a record that has an [objectID] and no [_id], the hit of
    what the batch stores is the record; on a stored record that has an
    [_id] and no [objectID], what the batch would store for its hit is
    the stored record. *)
Theorem updateObject_to_hit (body : record) :
  (is_Some (body !! "objectID") -> body !! "_id" = None ->
   server.to_hit {| obj := updateObject body |} = body)
  /\ (is_Some (body !! "_id") -> body !! "objectID" = None ->
      updateObject (server.to_hit {| obj := body |}) = body).
Proof.
  split.
  - intros [v Hv] Hid. apply map_eq. intros k.
    unfold server.to_hit, updateObject, prop. cbn [obj].
    rewrite Hv. cbn [from_option id].
    destruct (decide (k = "_id")) as [->|Hk1].
    { by rewrite lookup_delete_eq. }
    rewrite lookup_delete_ne by done.
    destruct (decide (k = "objectID")) as [->|Hk2].
    { rewrite lookup_insert_eq, lookup_delete_ne, lookup_insert_eq by done.
      by rewrite Hv. }
    rewrite lookup_insert_ne, lookup_delete_ne, lookup_insert_ne by done.
    reflexivity.
  - intros [v Hv] Hid. apply map_eq. intros k.
    unfold server.to_hit, updateObject, prop. cbn [obj].
    rewrite Hv. cbn [from_option id].
    destruct (decide (k = "objectID")) as [->|Hk1].
    { by rewrite lookup_delete_eq. }
    rewrite lookup_delete_ne by done.
    destruct (decide (k = "_id")) as [->|Hk2].
    { rewrite lookup_insert_eq, lookup_delete_ne, lookup_insert_eq by done.
      by rewrite Hv. }
    rewrite lookup_insert_ne, lookup_delete_ne, lookup_insert_ne by done.
    reflexivity.
Qed.

Lemma with_id_lookup (id : jsval) (body : record) :
  with_id id body !! "_id" = Some (default id (body !! "_id"))
  /\ (forall k, k <> "_id" -> with_id id body !! k = body !! k).
Proof.
  unfold with_id. split.
  - rewrite lookup_union. destruct (body !! "_id") as [v|] eqn:Hv.
    + by rewrite lookup_singleton_eq.
    + by rewrite lookup_singleton_eq.
  - intros k Hk. rewrite lookup_union, lookup_singleton_ne by done.
    by destruct (body !! k).
Qed.

Lemma with_id_own (id : jsval) (body : record) :
  is_Some (body !! "_id") -> with_id id body = body.
Proof.
  intros [v Hv]. apply map_eq. intros k.
  destruct (decide (k = "_id")) as [->|Hk].
  - by rewrite (proj1 (with_id_lookup id body)), Hv.
  - by apply with_id_lookup.
Qed.

(** X12: the route that replaces an object first deletes the identifier
    of the path.  When that throws an error without [notFound] it answers
    500 with no body and does not call [PUT]; when it goes through or
    throws with [notFound], it stores one record, the body with the
    identifier of the path as [_id] where the body has no [_id] of its
    own, and answers 201 with the identifier of the path. *)
Theorem put_object_deletes_first (objectID : string) (body : record)
    (s s1 s2 : σ) (deleted : result unit) :
  getIndex s = (inr tt, s1) ->
  DELETE [JStr objectID] s1 = (deleted, s2) ->
  (forall e, deleted = inl e -> notFound e = false ->
     put_object getIndex PUT DELETE notFound now objectID body s
     = (inr {| code := 500; sent := Ended |}, s2))
  /\ ((deleted = inr tt \/ exists e, deleted = inl e /\ notFound e = true) ->
      forall s3,
        PUT [with_id (JStr objectID) body] s2 = (inr tt, s3) ->
        put_object getIndex PUT DELETE notFound now objectID body s
        = (inr {| code := 201;
                  sent := Updated now "algolite-task-id" (JStr objectID) |}, s3))
  /\ with_id (JStr objectID) body !! "_id"
     = Some (default (JStr objectID) (body !! "_id"))
  /\ (forall k, k <> "_id" -> with_id (JStr objectID) body !! k = body !! k).
Proof.
  intros Hg Hd. unfold put_object. rewrite (io_bind_ok _ _ s tt s1 Hg).
  split; [|split; [|apply with_id_lookup]].
  - intros e -> Hnf. unfold io_bind at 1, io_catch, io_bind at 1.
    rewrite Hd. cbn. by rewrite Hnf.
  - intros Hok s3 Hp. unfold io_bind at 1, io_catch, io_bind at 1.
    rewrite Hd. destruct Hok as [-> | (e & -> & Hnf)].
    + cbn. by rewrite (io_bind_ok _ _ s2 tt s3 Hp).
    + cbn. rewrite Hnf. cbn. by rewrite (io_bind_ok _ _ s2 tt s3 Hp).
Qed.

(** X13: a body that has an [_id] of its own is stored as it is by the
    route that adds an object, and the answer still carries the
    identifier that was generated. *)
Theorem add_object_own_id (body : record) (s s1 s2 : σ) :
  is_Some (body !! "_id") ->
  getIndex s = (inr tt, s1) ->
  PUT [body] s1 = (inr tt, s2) ->
  add_object getIndex PUT now v4 body s
  = (inr {| code := 201; sent := Created now "algolite-task-id" (JStr v4) |}, s2).
Proof.
  intros Hid Hg Hp. unfold add_object.
  rewrite (io_bind_ok _ _ s tt s1 Hg), with_id_own by assumption.
  by rewrite (io_bind_ok _ _ s1 tt s2 Hp).
Qed.

(** X14: the route that deletes an object sends its 200 answer whatever
    [DELETE] did: alone when [DELETE] went through or threw with
    [notFound], and after a 500 with no body when it threw another
    error. *)
Theorem delete_object_sends (objectID : string) (s s1 s2 : σ)
    (deleted : result unit) :
  getIndex s = (inr tt, s1) ->
  DELETE [JStr objectID] s1 = (deleted, s2) ->
  delete_object getIndex DELETE notFound now objectID s
  = (inr ((match deleted with
           | inl e => if notFound e then [] else [{| code := 500; sent := Ended |}]
           | inr _ => []
           end)
          ++ [{| code := 200;
                 sent := Deleted now "algolite-task-id" (JStr objectID) |}]), s2).
Proof.
  intros Hg Hd. unfold delete_object. rewrite (io_bind_ok _ _ s tt s1 Hg).
  unfold io_bind at 1, io_catch, io_bind at 1. rewrite Hd.
  destruct deleted as [e|[]]; cbn; [|reflexivity].
  by destruct (notFound e).
Qed.

(** X15: without [facetFilters], or with an empty one, the route that
    deletes by query opens the index and answers 400 with its own
    message, the parser not being called.  With a filter text, the text
    is compiled as it is; when that throws the answer is the internal
    server error and nothing is searched or deleted, and when it
    compiles the route searches the one expression and deletes the
    identifiers of the matches in one call, then answers 201. *)
Theorem deleteByQuery_cases (facetFilters : option string) (s s1 : σ) :
  getIndex s = (inr tt, s1) ->
  (facetFilters = None \/ facetFilters = Some "" ->
   deleteByQuery db getIndex SEARCH_ INDEX_DELETE item_id parse now facetFilters s
   = (inr {| code := 400;
             sent := Message "DeleteByQuery endpoint only supports tagFilters, facetFilters, numericFilters and geoQuery condition" 400 |},
      s1))
  /\ (forall f error,
       facetFilters = Some f -> f <> "" ->
       parseAlgoliaSQL.parseAlgoliaSQL db parse f = inl error ->
       wrapAsyncMiddleware_io
         (deleteByQuery db getIndex SEARCH_ INDEX_DELETE item_id parse now facetFilters) s
       = ({| code := 400; sent := Message "Internal server error" 500 |}, s1))
  /\ (forall f e result s2 s3,
       facetFilters = Some f -> f <> "" ->
       parseAlgoliaSQL.parseAlgoliaSQL db parse f = inr e ->
       SEARCH_ [e] s1 = (inr result, s2) ->
       INDEX_DELETE (map item_id result) s2 = (inr tt, s3) ->
       deleteByQuery db getIndex SEARCH_ INDEX_DELETE item_id parse now facetFilters s
       = (inr {| code := 201; sent := Queried now "algolite-task-id" |}, s3)).
Proof.
  intros Hg. unfold wrapAsyncMiddleware_io, deleteByQuery.
  rewrite (io_bind_ok _ _ s tt s1 Hg).
  split; [|split].
  - intros [-> | ->]; reflexivity.
  - intros f error -> Hf He. unfold io_bind.
    destruct (falsy (JStr f)) eqn:F; [by apply falsy_JStr in F|].
    by rewrite He.
  - intros f e result s2 s3 -> Hf He Hs Hd. unfold io_bind at 1.
    destruct (falsy (JStr f)) eqn:F; [by apply falsy_JStr in F|].
    rewrite He. cbn [bind ret].
    rewrite (io_bind_ok _ _ s1 result s2 Hs).
    by rewrite (io_bind_ok _ _ s2 tt s3 Hd).
Qed.

(** X16: on an index that does not exist the route that clears answers
    400 with no body and leaves the store as it was, the index not being
    opened; on one that exists it reads every record and deletes their
    [_id]s in one call, then answers 200. *)
Theorem clear_cases (s : σ) :
  (existIndex s = false ->
   clear getIndex INDEX_GET INDEX_DELETE existIndex s
   = (inr {| code := 400; sent := Ended |}, s))
  /\ (forall result s1 s2 s3,
       existIndex s = true ->
       getIndex s = (inr tt, s1) ->
       INDEX_GET "" s1 = (inr result, s2) ->
       INDEX_DELETE (map (fun obj => prop obj "_id") result) s2 = (inr tt, s3) ->
       clear getIndex INDEX_GET INDEX_DELETE existIndex s
       = (inr {| code := 200; sent := Cleared "algolite-task-id" |}, s3)).
Proof.
  unfold clear. split.
  - by intros ->.
  - intros result s1 s2 s3 -> Hg Hr Hd. cbn [negb].
    rewrite (io_bind_ok _ _ s tt s1 Hg), (io_bind_ok _ _ s1 result s2 Hr).
    by rewrite (io_bind_ok _ _ s2 tt s3 Hd).
Qed.
End RoutesFacts.

Section EmptyFilters.
Context {E : Type} (db : Db E).
Variable parse : string -> result jsval.
Variable sort : (record -> record -> Z) -> list record -> list record.
Import server.

(** X6: an empty [filters] text adds no clause and is not handed to the
    parser; an empty [facetFilters] array is: its text is empty, and
    when the parser throws on the empty text the request fails with that
    error though its other parameters are in order.  An empty nested
    array gives the text [()]. *)
Theorem empty_filters_and_facets (req : Request.t) :
  (Request.filters req = Some "" ->
   search_expressions db parse req
   = (let* facetExp := facet_clause db parse (Request.facetFilters req) in
      ret (text_clause db (Request.query req) ++ facetExp)%list))
  /\ (forall e filterExp,
       Request.facetFilters req = Some [] ->
       filter_clause db parse (Request.filters req) = inr filterExp ->
       parse "" = inl e ->
       query_route db parse sort req = inl e)
  /\ facet_string [] = ""
  /\ facet_string [FArr []] = "()".
Proof.
  split; [|split; [|split; reflexivity]].
  - intros H. unfold search_expressions. rewrite H. reflexivity.
  - intros e filterExp Hff Hf He. unfold query_route, search_expressions.
    rewrite Hf, Hff. cbn [bind facet_clause].
    unfold parseAlgoliaSQL.parseAlgoliaSQL.
    change (facet_string []) with "". by rewrite He.
Qed.
End EmptyFilters.

(** * The recommendations route *)
Section RecommendFacts.
Context {E : Type}.
Variable getIndex : jsval -> result (Db E).
Variable sort : (record -> record -> Z) -> list record -> list record.
(** The runtime's sort rearranges the array it is given. *)
Hypothesis sort_permutes : forall comparefn l, sort comparefn l ≡ₚ l.
Import recommend.
Local Open Scope list_scope.

Lemma recommend_one_inr request hits :
  recommend_one getIndex sort request = inr hits ->
  exists db content,
    getIndex (indexName request) = inr db
    /\ SEARCH db [term db "*"] = inr content
    /\ hits = map recommendation
                (take (Z.to_nat (numRecommendations request
                                   (objects_of sort request content)))
                      (objects_of sort request content)).
Proof.
  unfold recommend_one. intros H.
  apply bind_inr in H as (db & Hdb & H).
  apply bind_inr in H as (content & Hc & H).
  exists db, content. repeat split; try assumption. by injection H.
Qed.

Lemma candidate_id (object : item) :
  prop (candidate object) "_id" = prop (obj object) "_id".
Proof. unfold candidate, prop. by simplify_map_eq. Qed.

Lemma recommendation_props (object : item) :
  prop (recommendation (candidate object)) "objectID" = prop (obj object) "_id"
  /\ prop (recommendation (candidate object)) "name" = prop (obj object) "name"
  /\ prop (recommendation (candidate object)) "_score"
     = prop (obj object) "featuredScore".
Proof.
  unfold recommendation, candidate, prop. repeat split; by simplify_map_eq.
Qed.


(** X18: no hit of a request has the [objectID] of the request, and
    every hit is an object of the index: its [objectID], [name] and
    [_score] are the [_id], [name] and [featuredScore] of one match. *)
Theorem recommendations_exclude_queried request hits h :
  recommend_one getIndex sort request = inr hits ->
  h ∈ hits ->
  strict_eq (prop h "objectID") (objectID request) = false
  /\ exists db content object,
       getIndex (indexName request) = inr db
       /\ SEARCH db [term db "*"] = inr content
       /\ object ∈ content
       /\ prop h "objectID" = prop (obj object) "_id"
       /\ prop h "name" = prop (obj object) "name"
       /\ prop h "_score" = prop (obj object) "featuredScore".
Proof.
  intros (db & content & Hdb & Hc & ->)%recommend_one_inr Hh.
  apply list_elem_of_In, in_map_iff in Hh as (o & <- & Ho).
  apply list_elem_of_In, subseteq_take in Ho.
  unfold objects_of in Ho. rewrite sort_permutes in Ho.
  apply list_elem_of_filter in Ho as [Hne Ho].
  apply list_elem_of_In, in_map_iff in Ho as (object & <- & Hobj).
  destruct (recommendation_props object) as (Hid & Hname & Hscore).
  split.
  - rewrite Hid. cbn beta in Hne. rewrite candidate_id in Hne.
    by destruct (strict_eq _ _).
  - exists db, content, object. repeat split; try assumption.
    by apply list_elem_of_In.
Qed.

End RecommendFacts.

(** * Instances of the further properties *)

(** The first place of the second page of three hits in pages of 2. *)
Lemma page_lookup_witness :
  (0 <= 1)%Z /\ (0 < 2)%Z
  /\ server.paginate three_hits 1 2 !! 0%nat
     = if (Z.of_nat 0 <? 2 - 1)%Z
       then three_hits !! (Z.to_nat (1 * 2) + 0)%nat
       else None.
Proof.
  split; [lia|]. split; [lia|]. apply page_lookup; lia.
Defined.

Lemma three_hits_NoDup : NoDup three_hits.
Proof.
  unfold three_hits.
  repeat (apply NoDup_cons; split;
          [rewrite ?not_elem_of_cons; repeat split;
           try (intros H; apply (f_equal (fun m : record => m !! "k")) in H;
                vm_compute in H; discriminate);
           apply not_elem_of_nil |]).
  apply NoDup_nil_2.
Qed.

(** The second of three hits is not on the first page of 2. *)
Lemma last_of_window_on_no_page_witness :
  (0 < 2)%Z /\ NoDup three_hits
  /\ three_hits !! 1%nat = Some ({[ "k" := JNum 1 ]} : record)
  /\ ((Z.of_nat 1 + 1) mod 2 = 0)%Z
  /\ (0 <= 0)%Z
  /\ ({[ "k" := JNum 1 ]} : record) ∉ server.paginate three_hits 0 2.
Proof.
  split; [lia|]. split; [exact three_hits_NoDup|].
  split; [reflexivity|]. split; [reflexivity|]. split; [lia|].
  apply (last_of_window_on_no_page three_hits 2 1 {[ "k" := JNum 1 ]});
    [lia | exact three_hits_NoDup | reflexivity | reflexivity | lia].
Defined.

(** Prices 1 and 2. *)
Lemma comparator_cases_witness :
  let item1 : record := {[ "price" := JNum 1 ]} in
  let item2 : record := {[ "price" := JNum 2 ]} in
  item1 !! "price" = Some (JNum 1) /\ item2 !! "price" = Some (JNum 2)
  /\ (1 < 2)%Z
  /\ server.comparator "price" false item1 item2 = (-1)%Z
  /\ server.comparator "price" false item2 item1 = 1%Z
  /\ server.comparator "price" true item1 item2 = 1%Z
  /\ server.comparator "price" true item2 item1 = (-1)%Z.
Proof.
  intros item1 item2.
  split; [reflexivity|]. split; [reflexivity|]. split; [lia|].
  apply (proj1 (proj2 (comparator_cases "price" false item1 item2)) 1%Z 2%Z);
    [reflexivity | reflexivity | lia].
Defined.

(** A conjunction whose left operand negates a conjunction. *)
Lemma operands_compiled_left_to_right_witness :
  let l := AST.rule_of (AST.Not (AST.And (AST.Match "a" (JNum 1))
                                         (AST.Match "b" (JNum 2)))) in
  let r := JObj (JStr "LIKE") JUndefined JUndefined JUndefined JUndefined in
  ("AND" = "AND" \/ "AND" = "OR")
  /\ parseAlgoliaSQL.buildSearchExpression (index_of []) l
     = inl (Error "NOT only supports MATCH")
  /\ parseAlgoliaSQL.buildSearchExpression (index_of [])
       (JObj (JStr "AND") JUndefined JUndefined l r)
     = inl (Error "NOT only supports MATCH").
Proof.
  intros l r. split; [by left|]. split; [reflexivity|].
  apply (proj1 (operands_compiled_left_to_right (index_of []) "AND"
                  JUndefined JUndefined l r (Error "NOT only supports MATCH")
                  (or_introl eq_refl))).
  reflexivity.
Defined.

(** A number in the place of a rule. *)
Lemma buildSearchExpression_malformed_witness :
  parseAlgoliaSQL.buildSearchExpression (index_of []) (JNum 3)
  = inl (Error "UNKNOWN TOKEN")
  /\ (Error "UNKNOWN TOKEN" = Error "NOT only supports MATCH"
      \/ Error "UNKNOWN TOKEN" = Error "UNKNOWN TOKEN"
      \/ exists m, Error "UNKNOWN TOKEN" = TypeError m).
Proof.
  split; [reflexivity|].
  apply (proj1 (buildSearchExpression_malformed (index_of [])) (JNum 3)).
  reflexivity.
Defined.

(** A request with an empty [facetFilters] array. *)
Lemma empty_filters_and_facets_witness :
  let req := request (Some "shoes") (Some "") (Some []) None None in
  Request.facetFilters req = Some []
  /\ server.filter_clause (index_of products) algoliaDSLParser.parse
       (Request.filters req) = inr []
  /\ algoliaDSLParser.parse "" = inl (SyntaxError "end of input")
  /\ server.query_route (index_of products) algoliaDSLParser.parse no_sort req
     = inl (SyntaxError "end of input").
Proof.
  intros req. split; [reflexivity|]. split; [reflexivity|]. split; [reflexivity|].
  apply (proj1 (proj2 (empty_filters_and_facets (index_of products)
                         algoliaDSLParser.parse no_sort req))
           (SyntaxError "end of input") []); reflexivity.
Defined.

(** A batch with a request to add an object. *)
Lemma batch_unsupported_action_witness :
  forallb supported batch_with_add = false
  /\ routes.wrapAsyncMiddleware_io
       (routes.batch open_log put_log delete_log is_not_found batch_with_add) []
     = ({| code := 400; sent := Ended |}, []).
Proof.
  split; [reflexivity|].
  apply (batch_unsupported_action open_log put_log delete_log is_not_found
           batch_with_add []).
  reflexivity.
Defined.

(** The batch that updates [a] and deletes [b] answers with [undefined]
    and [b]. *)
Lemma batch_answers_ids_witness :
  let res := {| code := 201;
                sent := Batched "algolite-task-id" [JUndefined; JStr "b"] |} in
  let s' := [Opened; Put (puts_of batch_example); Delete [JStr "b"]] in
  routes.batch open_log put_log delete_log is_not_found batch_example []
  = (inr res, s')
  /\ sent res = Batched "algolite-task-id" [JUndefined; JStr "b"]
  /\ [JUndefined; JStr "b"] = answered_ids batch_example.
Proof.
  intros res s'. split; [reflexivity|]. split; [reflexivity|].
  apply (batch_answers_ids open_log put_log delete_log is_not_found
           batch_example [] s' res "algolite-task-id"); reflexivity.
Defined.

(** On a store that logs its calls, the batch that updates [a] and
    deletes [b] opens the index, puts the body of [a] and deletes [b]. *)
Lemma batch_puts_then_deletes_witness :
  let s1 := [Opened] in
  let s2 := [Opened; Put [{[ "_id" := JStr "a"; "n" := JNum 1 ]}]] in
  let s3 := [Opened; Put [{[ "_id" := JStr "a"; "n" := JNum 1 ]}];
             Delete [JStr "b"]] in
  forallb supported batch_example = true
  /\ open_log [] = (inr tt, s1)
  /\ put_log (puts_of batch_example) s1 = (inr tt, s2)
  /\ delete_log (deletes_of batch_example) s2 = (inr tt, s3)
  /\ routes.batch open_log put_log delete_log is_not_found batch_example []
     = (inr {| code := 201;
               sent := Batched "algolite-task-id" (answered_ids batch_example) |},
        s3).
Proof.
  intros s1 s2 s3.
  assert (Hs : forallb supported batch_example = true) by reflexivity.
  assert (Hg : open_log [] = (inr tt, s1)) by reflexivity.
  assert (Hp : put_log (puts_of batch_example) s1 = (inr tt, s2))
    by (vm_compute; reflexivity).
  assert (Hd : delete_log (deletes_of batch_example) s2 = (inr tt, s3))
    by reflexivity.
  split; [exact Hs|]. split; [exact Hg|]. split; [exact Hp|]. split; [exact Hd|].
  exact (proj1 (proj2 (proj2
           (batch_puts_then_deletes open_log put_log delete_log is_not_found
              batch_example [] Hs))) s1 s2 s3 Hg Hp Hd).
Defined.

(** The same batch on a store that has no [b]. *)
Lemma batch_delete_error_witness :
  let s1 := [Opened] in
  let s2 := [Opened; Put (puts_of batch_example)] in
  let s3 := [Opened; Put (puts_of batch_example); Delete (deletes_of batch_example)] in
  forallb supported batch_example = true
  /\ open_log [] = (inr tt, s1)
  /\ put_log (puts_of batch_example) s1 = (inr tt, s2)
  /\ deletes_of batch_example <> []
  /\ delete_refused NotFoundError (deletes_of batch_example) s2
     = (inl NotFoundError, s3)
  /\ routes.wrapAsyncMiddleware_io
       (routes.batch open_log put_log (delete_refused NotFoundError)
          is_not_found batch_example) []
     = ({| code := 201;
           sent := Batched "algolite-task-id" (answered_ids batch_example) |}, s3).
Proof.
  intros s1 s2 s3.
  split; [reflexivity|]. split; [reflexivity|]. split; [reflexivity|].
  split; [discriminate|]. split; [reflexivity|].
  apply (batch_delete_error open_log put_log (delete_refused NotFoundError)
           is_not_found batch_example [] s1 s2 s3 NotFoundError);
    [reflexivity | reflexivity | reflexivity | discriminate | reflexivity].
Defined.

Lemma updateObject_to_hit_witness :
  let body : record := {[ "objectID" := JStr "a"; "n" := JNum 1 ]} in
  is_Some (body !! "objectID") /\ body !! "_id" = None
  /\ server.to_hit {| obj := routes.updateObject body |} = body.
Proof.
  intros body.
  assert (H1 : is_Some (body !! "objectID")) by (by exists (JStr "a")).
  assert (H2 : body !! "_id" = None) by reflexivity.
  split; [exact H1|]. split; [exact H2|].
  exact (proj1 (updateObject_to_hit body) H1 H2).
Defined.

(** Replacing an object on a store whose [DELETE] fails. *)
Lemma put_object_deletes_first_witness :
  let body : record := {[ "n" := JNum 1 ]} in
  open_log [] = (inr tt, [Opened])
  /\ delete_refused (Error "IO error") [JStr "a"] [Opened]
     = (inl (Error "IO error"), [Opened; Delete [JStr "a"]])
  /\ is_not_found (Error "IO error") = false
  /\ routes.put_object open_log put_log (delete_refused (Error "IO error"))
       is_not_found "2026-01-01T00:00:00.000Z" "a" body []
     = (inr {| code := 500; sent := Ended |}, [Opened; Delete [JStr "a"]]).
Proof.
  intros body.
  split; [reflexivity|]. split; [reflexivity|]. split; [reflexivity|].
  apply (proj1 (put_object_deletes_first open_log put_log
                  (delete_refused (Error "IO error")) is_not_found
                  "2026-01-01T00:00:00.000Z" "a" body
                  [] [Opened] [Opened; Delete [JStr "a"]]
                  (inl (Error "IO error")) eq_refl eq_refl)
           (Error "IO error")); reflexivity.
Defined.

(** Adding an object that brings an [_id]. *)
Lemma add_object_own_id_witness :
  let body : record := {[ "_id" := JStr "mine"; "n" := JNum 1 ]} in
  is_Some (body !! "_id")
  /\ open_log [] = (inr tt, [Opened])
  /\ put_log [body] [Opened] = (inr tt, [Opened; Put [body]])
  /\ routes.add_object open_log put_log "2026-01-01T00:00:00.000Z" "generated" body []
     = (inr {| code := 201;
               sent := Created "2026-01-01T00:00:00.000Z" "algolite-task-id"
                         (JStr "generated") |},
        [Opened; Put [body]]).
Proof.
  intros body.
  assert (H : is_Some (body !! "_id")) by (by exists (JStr "mine")).
  split; [exact H|]. split; [reflexivity|]. split; [reflexivity|].
  apply (add_object_own_id open_log put_log "2026-01-01T00:00:00.000Z"
           "generated" body [] [Opened] [Opened; Put [body]] H);
    reflexivity.
Defined.

(** Deleting an object on a store whose [DELETE] fails. *)
Lemma delete_object_sends_witness :
  open_log [] = (inr tt, [Opened])
  /\ delete_refused (Error "IO error") [JStr "a"] [Opened]
     = (inl (Error "IO error"), [Opened; Delete [JStr "a"]])
  /\ routes.delete_object open_log (delete_refused (Error "IO error"))
       is_not_found "2026-01-01T00:00:00.000Z" "a" []
     = (inr [ {| code := 500; sent := Ended |};
              {| code := 200;
                 sent := Deleted "2026-01-01T00:00:00.000Z" "algolite-task-id"
                           (JStr "a") |} ],
        [Opened; Delete [JStr "a"]]).
Proof.
  split; [reflexivity|]. split; [reflexivity|].
  apply (delete_object_sends open_log (delete_refused (Error "IO error"))
           is_not_found "2026-01-01T00:00:00.000Z" "a"
           [] [Opened] [Opened; Delete [JStr "a"]] (inl (Error "IO error")));
    reflexivity.
Defined.

(** Deleting by query without a filter. *)
Lemma deleteByQuery_cases_witness :
  open_log [] = (inr tt, [Opened])
  /\ ((None : option string) = None \/ (None : option string) = Some "")
  /\ routes.deleteByQuery (index_of products) open_log (search_log products)
       index_delete_log (fun _ => JUndefined) algoliaDSLParser.parse
       "2026-01-01T00:00:00.000Z" None []
     = (inr {| code := 400;
               sent := Message "DeleteByQuery endpoint only supports tagFilters, facetFilters, numericFilters and geoQuery condition" 400 |},
        [Opened]).
Proof.
  split; [reflexivity|]. split; [by left|].
  apply (proj1 (deleteByQuery_cases (index_of products) open_log
                  (search_log products) index_delete_log (fun _ => JUndefined)
                  algoliaDSLParser.parse "2026-01-01T00:00:00.000Z"
                  None [] [Opened] eq_refl)).
  by left.
Defined.

(** Clearing an index that does not exist. *)
Lemma clear_cases_witness :
  (fun _ : list call => false) [] = false
  /\ routes.clear open_log (get_log []) index_delete_log (fun _ => false) []
     = (inr {| code := 400; sent := Ended |}, []).
Proof.
  split; [reflexivity|].
  apply (proj1 (clear_cases open_log (get_log []) index_delete_log
                  (fun _ => false) [])).
  reflexivity.
Defined.

Lemma no_sort_permutes : forall comparefn l, no_sort comparefn l ≡ₚ l.
Proof. intros comparefn l. reflexivity. Qed.


Lemma recommendations_exclude_queried_witness :
  let h := recommend.recommendation (recommend.candidate (product "b" 2)) in
  recommend.recommend_one (fun _ => inr (index_of products)) no_sort related_to_a
  = inr [h]
  /\ h ∈ [h]
  /\ strict_eq (prop h "objectID") (objectID related_to_a) = false.
Proof.
  intros h.
  assert (H1 : recommend.recommend_one (fun _ => inr (index_of products))
                 no_sort related_to_a = inr [h]) by reflexivity.
  assert (H2 : h ∈ [h]) by apply list_elem_of_here.
  split; [exact H1|]. split; [exact H2|].
  exact (proj1 (recommendations_exclude_queried (fun _ => inr (index_of products))
                  no_sort no_sort_permutes related_to_a [h] h H1 H2)).
Defined.


